(** * The SIR integrator of [simulation.py], embedded in Rocq

    [run_sir_model] advances the three compartments of a
    Susceptible-Infected-Recovered model with a fixed-step forward Euler
    scheme, clamps each compartment, and rescales the triple so that it sums
    to the population again.

    ** Arithmetic

    The source computes in IEEE binary64, and the development has the
    integrator twice.

    The first embedding reads every arithmetic operation over the rationals
    [Q], in exact arithmetic: [+], [-], [*] and [/] are the field
    operations and the comparisons are those of [Q].  It carries the
    statements that are about exact arithmetic by their own words, the
    statements about which computation a step performs, and the equalities
    between two runs.  Values are stated up to [==] ([Qeq]).  [Q] has no
    [inf] or [nan], and [x / 0] is [0] there; the values of this embedding
    are read for [N <> 0] only.

    The second embedding, the module [Binary64] at the end, has the
    operations of the source on primitive binary64 floats, rounding,
    overflow, [nan] and the rounded time axis of [np.linspace] included.  It
    carries the statements about the values the code stores, and the runs
    that show where an exact statement stops holding.

    ** Control

    Python exceptions are the [Raises] outcome.  [total_time / time_steps]
    divides two Python numbers and raises [ZeroDivisionError] on a zero
    divisor; subscripting an array out of range raises [IndexError];
    [np.linspace] and [np.zeros] raise [ValueError] on a negative size;
    negating [None] raises [TypeError]; converting an [int] too large for a
    float raises [OverflowError].

    ** Around the integrator

    The later parts embed what the rest of the file computes with the
    integrator's result: the peak that [plot_sir_comparison] marks, the
    [R0_calc] of the chart titles, the scenario table [datas] and the loop of
    the main program.  Drawing, saving and printing are effects and are left
    out. *)

From Stdlib Require Import QArith Lqa ZArith Lia Floats.
From stdpp Require Import base option list strings.

Local Open Scope Q_scope.

(** ** Outcomes of a Python computation *)

Inductive exn : Set :=
| ZeroDivisionError
| ValueError
| IndexError
| TypeError
| OverflowError.

Inductive outcome (A : Type) : Type :=
| Returns (a : A)
| Raises (e : exn).

Arguments Returns {A} a.
Arguments Raises {A} e.

#[global] Instance outcome_ret : MRet outcome := fun A a => Returns a.

#[global] Instance outcome_bind : MBind outcome := fun A B f m =>
  match m with
  | Returns a => f a
  | Raises e => Raises e
  end.

(** ** Python and numpy primitives *)

Definition Qltb (x y : Q) : bool := negb (Qle_bool y x).

(** [max(a, b)]: the first argument unless the second is strictly larger. *)
Definition py_max (a b : Q) : Q := if Qltb a b then b else a.

(** [min(a, b)]: the first argument unless the second is strictly smaller. *)
Definition py_min (a b : Q) : Q := if Qltb b a then b else a.

(** [a / b] on Python numbers. *)
Definition py_div (a b : Q) : outcome Q :=
  if Qeq_bool b 0 then Raises ZeroDivisionError else Returns (a / b).

(** [a[i]] and [a[i] = x] on a one-dimensional array, for [i >= 0]. *)
Definition getitem (a : list Q) (i : nat) : outcome Q :=
  match a !! i with
  | Some x => Returns x
  | None => Raises IndexError
  end.

Definition setitem (a : list Q) (i : nat) (x : Q) : outcome (list Q) :=
  if (i <? length a)%nat then Returns (<[i:=x]> a) else Raises IndexError.

(** [np.zeros(n)]. *)
Definition zeros (n : Z) : outcome (list Q) :=
  if (n <? 0)%Z then Raises ValueError else Returns (replicate (Z.to_nat n) 0).

(** [np.linspace(start, stop, num)] with the default [endpoint=True], as
    numpy documents and computes it: [num] samples [k * step + start],
    [step = (stop - start) / (num - 1)], the last one overwritten with [stop]
    when there are at least two. *)
Definition linspace (start stop : Q) (num : Z) : outcome (list Q) :=
  if (num <? 0)%Z then Raises ValueError
  else
    let step := (stop - start) / inject_Z (num - 1) in
    let y := (fun k : nat => inject_Z (Z.of_nat k) * step + start)
               <$> seq 0 (Z.to_nat num) in
    Returns (if (1 <? num)%Z then <[(Z.to_nat num - 1)%nat := stop]> y else y).

(** [for i in range(n): st = body(i, st)], from index [i0]. *)
Fixpoint for_range {St : Type} (i0 n : nat) (body : nat -> St -> outcome St)
    (st : St) : outcome St :=
  match n with
  | O => Returns st
  | Datatypes.S n' => st' ← body i0 st; for_range (Datatypes.S i0) n' body st'
  end.

(** ** The integrator *)

(** The three compartment arrays [S], [I], [R] of the source. *)
Record arrays : Type := Arrays {
  arr_S : list Q;
  arr_I : list Q;
  arr_R : list Q
}.

(** The returned tuple [(t, S, I, R)]. *)
Record result : Type := Result {
  res_t : list Q;
  res_S : list Q;
  res_I : list Q;
  res_R : list Q
}.

(** [None] where Python has [None]. *)
Definition as_number (v : option Q) : outcome Q :=
  match v with
  | Some x => Returns x
  | None => Raises TypeError
  end.

Section Integrator.

Variables N I0 R0_param beta gamma total_time : Q.
Variable time_steps : Z.
Variables intervencao_dia beta_pos_intervencao : option Q.

(** Lines 102-104: the rate of the step that starts at time [t_i]. *)
Definition current_beta (t_i : Q) : option Q :=
  match intervencao_dia with
  | Some dia => if Qle_bool dia t_i then beta_pos_intervencao else Some beta
  | None => Some beta
  end.

(** Lines 100-130: one iteration of the loop, on the arrays. *)
Definition loop_body (dt : Q) (t : list Q) (i : nat) (a : arrays)
    : outcome arrays :=
  t_i ← getitem t i;
  b ← as_number (current_beta t_i);
  s_i ← getitem (arr_S a) i;
  i_i ← getitem (arr_I a) i;
  let d_S := - b * s_i * i_i / N in
  let d_I := b * s_i * i_i / N - gamma * i_i in
  let d_R := gamma * i_i in
  r_i ← getitem (arr_R a) i;
  S1 ← setitem (arr_S a) (i + 1) (s_i + d_S * dt);
  I1 ← setitem (arr_I a) (i + 1) (i_i + d_I * dt);
  R1 ← setitem (arr_R a) (i + 1) (r_i + d_R * dt);
  s ← getitem S1 (i + 1);
  S2 ← setitem S1 (i + 1) (py_max 0 s);
  j ← getitem I1 (i + 1);
  I2 ← setitem I1 (i + 1) (py_max 0 j);
  r ← getitem R1 (i + 1);
  R2 ← setitem R1 (i + 1) (py_min N r);
  s ← getitem S2 (i + 1);
  j ← getitem I2 (i + 1);
  r ← getitem R2 (i + 1);
  let total := s + j + r in
  if negb (Qeq_bool total N) && Qltb 0 total then
    let fator := N / total in
    S3 ← setitem S2 (i + 1) (s * fator);
    I3 ← setitem I2 (i + 1) (j * fator);
    R3 ← setitem R2 (i + 1) (r * fator);
    mret (Arrays S3 I3 R3)
  else mret (Arrays S2 I2 R2).

(** Lines 86-133. *)
Definition run_sir_model : outcome result :=
  dt ← py_div total_time (inject_Z time_steps);
  t ← linspace 0 total_time (time_steps + 1);
  I ← zeros (time_steps + 1);
  R ← zeros (time_steps + 1);
  S ← zeros (time_steps + 1);
  I ← setitem I 0 I0;
  R ← setitem R 0 R0_param;
  S ← setitem S 0 (N - I0 - R0_param);
  a ← for_range 0 (Z.to_nat time_steps) (loop_body dt t) (Arrays S I R);
  mret (Result t (arr_S a) (arr_I a) (arr_R a)).

(** *** The same step on a triple of values

    [loop_body] reads cell [i] of the three arrays and leaves cell [i + 1]
    holding [renormalize (clamp (forward b dt (s, i, r)))]; see
    [loop_body_cells]. *)

(** Lines 108-117: derivatives and forward update. *)
Definition forward (b dt : Q) (x : Q * Q * Q) : Q * Q * Q :=
  let '(s, i, r) := x in
  (s + (- b * s * i / N) * dt,
   i + (b * s * i / N - gamma * i) * dt,
   r + (gamma * i) * dt).

(** Lines 120-122. *)
Definition clamp (x : Q * Q * Q) : Q * Q * Q :=
  let '(s, i, r) := x in (py_max 0 s, py_max 0 i, py_min N r).

(** Lines 125-130. *)
Definition renormalize (x : Q * Q * Q) : Q * Q * Q :=
  let '(s, i, r) := x in
  let total := s + i + r in
  if negb (Qeq_bool total N) && Qltb 0 total then
    let fator := N / total in (s * fator, i * fator, r * fator)
  else (s, i, r).

Definition sir_next (b dt : Q) (x : Q * Q * Q) : Q * Q * Q :=
  renormalize (clamp (forward b dt x)).

(** Cell [k] of the three arrays, when all three have one. *)
Definition cells (a : arrays) (k : nat) : option (Q * Q * Q) :=
  s ← arr_S a !! k; i ← arr_I a !! k; r ← arr_R a !! k; Some (s, i, r).

(** The step size and the time points that [np.linspace] produces. *)
Definition step_size : Q := total_time / inject_Z time_steps.

Definition time_point (k : nat) : Q :=
  inject_Z (Z.of_nat k) * ((total_time - 0) / inject_Z (time_steps + 1 - 1)) + 0.

(** The rate of step [k]; [beta] stands in where Python would hold [None]
    (such a step raises, and no state follows it). *)
Definition rate (k : nat) : Q := default beta (current_beta (time_point k)).

(** The states the loop goes through. *)
Fixpoint trajectory (k : nat) : Q * Q * Q :=
  match k with
  | O => (N - I0 - R0_param, I0, R0_param)
  | Datatypes.S k' => sir_next (rate k') step_size (trajectory k')
  end.

(** The arrays as lines 91-97 leave them. *)
Definition initial_arrays : arrays :=
  let zeros := replicate (Datatypes.S (Z.to_nat time_steps)) 0 in
  Arrays (<[0%nat := N - I0 - R0_param]> zeros)
         (<[0%nat := I0]> zeros)
         (<[0%nat := R0_param]> zeros).

Definition full_length (a : arrays) : Prop :=
  length (arr_S a) = Datatypes.S (Z.to_nat time_steps) /\
  length (arr_I a) = Datatypes.S (Z.to_nat time_steps) /\
  length (arr_R a) = Datatypes.S (Z.to_nat time_steps).

(** The constraints of a Model Configuration: population [N],
    initial_infected [I0], initial_recovered [R0_param], transmission_rate
    [beta], recovery_rate [gamma], horizon [total_time], steps [time_steps],
    intervention_time [intervencao_dia] and intervention_rate
    [beta_pos_intervencao], the latter required when the former is set. *)
Definition valid_config : Prop :=
  0 < N /\ 0 <= I0 /\ I0 <= N /\ 0 <= R0_param /\ R0_param <= N - I0 /\
  0 <= beta /\ 0 < gamma /\ 0 < total_time /\ (0 < time_steps)%Z /\
  (is_Some intervencao_dia -> is_Some beta_pos_intervencao).

(** No step of the run meets a missing rate. *)
Definition rates_present : Prop :=
  forall k : nat, (k < Z.to_nat time_steps)%nat ->
    is_Some (current_beta (time_point k)).

End Integrator.

(** Cell [k] of the three compartment sequences of a result. *)
Definition state_at (res : result) (k : nat) : option (Q * Q * Q) :=
  cells (Arrays (res_S res) (res_I res) (res_R res)) k.

(** The sum of a triple, and the bounds of the three compartments. *)
Definition total3 (x : Q * Q * Q) : Q := fst (fst x) + snd (fst x) + snd x.

Definition in_bounds (N : Q) (x : Q * Q * Q) : Prop :=
  0 <= fst (fst x) /\ 0 <= snd (fst x) /\ 0 <= snd x /\ snd x <= N.

(** ** Comparisons and clamps *)

Lemma Qltb_true (x y : Q) : Qltb x y = true <-> x < y.
Proof.
  unfold Qltb. rewrite negb_true_iff.
  destruct (Qle_bool y x) eqn:E.
  - apply Qle_bool_iff in E. split; [discriminate | lra].
  - split; [intros _ | reflexivity].
    destruct (Qlt_le_dec x y) as [H | H]; [exact H |].
    apply Qle_bool_iff in H. congruence.
Qed.

Lemma Qltb_false (x y : Q) : Qltb x y = false <-> y <= x.
Proof.
  destruct (Qltb x y) eqn:E.
  - apply Qltb_true in E. split; [discriminate | lra].
  - split; [intros _ | reflexivity].
    destruct (Qlt_le_dec x y) as [H | H]; [| exact H].
    apply Qltb_true in H. congruence.
Qed.

Lemma Qeq_bool_false (x y : Q) : Qeq_bool x y = false <-> ~ x == y.
Proof.
  split.
  - intros E H. apply Qeq_bool_iff in H. congruence.
  - intros H. destruct (Qeq_bool x y) eqn:E; [| reflexivity].
    apply Qeq_bool_iff in E. contradiction.
Qed.

Lemma py_max_spec (a b : Q) :
  (a < b /\ py_max a b = b) \/ (b <= a /\ py_max a b = a).
Proof.
  unfold py_max. destruct (Qltb a b) eqn:E.
  - left. apply Qltb_true in E. auto.
  - right. apply Qltb_false in E. auto.
Qed.

Lemma py_min_spec (a b : Q) :
  (b < a /\ py_min a b = b) \/ (a <= b /\ py_min a b = a).
Proof.
  unfold py_min. destruct (Qltb b a) eqn:E.
  - left. apply Qltb_true in E. auto.
  - right. apply Qltb_false in E. auto.
Qed.

Lemma renormalize_spec (N : Q) (s i r : Q) :
  (~ s + i + r == N /\ 0 < s + i + r /\
   renormalize N (s, i, r)
   = (s * (N / (s + i + r)), i * (N / (s + i + r)), r * (N / (s + i + r))))
  \/ ((s + i + r == N \/ s + i + r <= 0) /\ renormalize N (s, i, r) = (s, i, r)).
Proof.
  unfold renormalize.
  destruct (Qeq_bool (s + i + r) N) eqn:E1; simpl.
  - right. apply Qeq_bool_iff in E1. auto.
  - apply Qeq_bool_false in E1.
    destruct (Qltb 0 (s + i + r)) eqn:E2.
    + left. apply Qltb_true in E2. auto.
    + right. apply Qltb_false in E2. auto.
Qed.

(** ** One step, on values *)

Lemma forward_total (N gamma b dt : Q) (x : Q * Q * Q) :
  total3 (forward N gamma b dt x) == total3 x.
Proof.
  destruct x as [[s i] r]. unfold total3, forward, Qdiv. simpl. ring.
Qed.

Lemma clamp_total_ge (N : Q) (x : Q * Q * Q) :
  0 < N -> total3 x == N -> N <= total3 (clamp N x).
Proof.
  destruct x as [[s i] r]. unfold total3, clamp. simpl. intros HN Hx.
  destruct (py_max_spec 0 s) as [[? ->] | [? ->]],
           (py_max_spec 0 i) as [[? ->] | [? ->]],
           (py_min_spec N r) as [[? ->] | [? ->]]; lra.
Qed.

Lemma renormalize_total (N : Q) (x : Q * Q * Q) :
  0 < total3 x -> total3 (renormalize N x) == N.
Proof.
  destruct x as [[s i] r]. intros Hpos. unfold total3 in Hpos. simpl in Hpos.
  destruct (renormalize_spec N s i r) as [(Hne & _ & ->) | ([Heq | Hle] & ->)];
    unfold total3; simpl.
  - field. lra.
  - exact Heq.
  - lra.
Qed.

Lemma sir_next_total (N gamma b dt : Q) (x : Q * Q * Q) :
  0 < N -> total3 x == N -> total3 (sir_next N gamma b dt x) == N.
Proof.
  intros HN Hx. unfold sir_next. apply renormalize_total.
  pose proof (clamp_total_ge N (forward N gamma b dt x) HN) as H.
  rewrite forward_total in H. specialize (H Hx). lra.
Qed.

Lemma clamp_bounds (N : Q) (x : Q * Q * Q) :
  0 < N -> 0 <= snd x -> in_bounds N (clamp N x).
Proof.
  destruct x as [[s i] r]. unfold in_bounds, clamp. simpl. intros HN Hr.
  destruct (py_max_spec 0 s) as [[? ->] | [? ->]],
           (py_max_spec 0 i) as [[? ->] | [? ->]],
           (py_min_spec N r) as [[? ->] | [? ->]]; repeat split; lra.
Qed.

Lemma scale_nonneg (N t v : Q) : 0 < N -> 0 < t -> 0 <= v -> 0 <= v * (N / t).
Proof.
  intros HN Ht Hv. apply Qmult_le_0_compat; [exact Hv |].
  apply Qlt_le_weak, Qlt_shift_div_l; [exact Ht | lra].
Qed.

Lemma scale_le (N t v : Q) : 0 < N -> 0 < t -> v <= t -> v * (N / t) <= N.
Proof.
  intros HN Ht Hv.
  assert (Hf : 0 <= N / t).
  { apply Qlt_le_weak, Qlt_shift_div_l; [exact Ht | lra]. }
  apply Qle_trans with (t * (N / t)).
  - apply Qmult_le_compat_r; assumption.
  - apply Qle_lteq. right. field. lra.
Qed.

Lemma renormalize_bounds (N : Q) (x : Q * Q * Q) :
  0 < N -> in_bounds N x -> in_bounds N (renormalize N x).
Proof.
  destruct x as [[s i] r]. unfold in_bounds. cbn [fst snd].
  intros HN (Hs & Hi & Hr & HrN).
  destruct (renormalize_spec N s i r) as [(_ & Ht & ->) | (_ & ->)];
    cbn [fst snd].
  - repeat split; try (apply scale_nonneg; assumption).
    apply scale_le; [assumption | assumption | lra].
  - auto.
Qed.

Lemma sir_next_bounds (N gamma b dt : Q) (x : Q * Q * Q) :
  0 < N -> 0 <= gamma -> 0 <= dt -> in_bounds N x ->
  in_bounds N (sir_next N gamma b dt x).
Proof.
  intros HN Hg Hdt Hx. unfold sir_next.
  apply renormalize_bounds; [exact HN |]. apply clamp_bounds; [exact HN |].
  destruct x as [[s i] r]. destruct Hx as (Hs & Hi & Hr & _). simpl in *.
  assert (0 <= gamma * i * dt).
  { apply Qmult_le_0_compat; [apply Qmult_le_0_compat |]; assumption. }
  lra.
Qed.

(** With nobody infected, a step changes no value. *)
Lemma sir_next_no_infection (N gamma b dt s i r : Q) :
  i == 0 -> 0 <= s -> r <= N -> s + i + r == N ->
  exists s' i' r',
    sir_next N gamma b dt (s, i, r) = (s', i', r') /\
    s' == s /\ i' == 0 /\ r' == r.
Proof.
  intros Hi Hs Hr Hsum. unfold sir_next, forward, clamp.
  set (s1 := s + - b * s * i / N * dt).
  set (i1 := i + (b * s * i / N - gamma * i) * dt).
  set (r1 := r + gamma * i * dt).
  assert (Hs1 : s1 == s) by (unfold s1, Qdiv; rewrite Hi; ring).
  assert (Hi1 : i1 == 0) by (unfold i1, Qdiv; rewrite Hi; ring).
  assert (Hr1 : r1 == r) by (unfold r1; rewrite Hi; ring).
  assert (Hs2 : py_max 0 s1 == s).
  { destruct (py_max_spec 0 s1) as [[? ->] | [? ->]]; lra. }
  assert (Hi2 : py_max 0 i1 == 0).
  { destruct (py_max_spec 0 i1) as [[? ->] | [? ->]]; lra. }
  assert (Hr2 : py_min N r1 == r).
  { destruct (py_min_spec N r1) as [[? ->] | [? ->]]; lra. }
  destruct (renormalize_spec N (py_max 0 s1) (py_max 0 i1) (py_min N r1))
    as [(Hne & _) | (_ & ->)].
  - exfalso. apply Hne. lra.
  - eauto 10.
Qed.

(** ** The loop body on arrays is [sir_next] on cells *)

Lemma bind_Returns {A B : Type} (a : A) (f : A -> outcome B) :
  (Returns a ≫= f) = f a.
Proof. reflexivity. Qed.

Lemma bind_Raises {A B : Type} (e : exn) (f : A -> outcome B) :
  (Raises e ≫= f) = Raises e.
Proof. reflexivity. Qed.

Lemma getitem_Some (a : list Q) (i : nat) (x : Q) :
  a !! i = Some x -> getitem a i = Returns x.
Proof. intros H. unfold getitem. now rewrite H. Qed.

Lemma setitem_lt (a : list Q) (i : nat) (x : Q) :
  (i < length a)%nat -> setitem a i x = Returns (<[i:=x]> a).
Proof.
  intros H. unfold setitem.
  destruct (Nat.ltb_spec i (length a)); [reflexivity | lia].
Qed.

Lemma getitem_insert (a : list Q) (i : nat) (x : Q) :
  (i < length a)%nat -> getitem (<[i:=x]> a) i = Returns x.
Proof. intros H. apply getitem_Some. now apply list_lookup_insert_eq. Qed.

Lemma setitem_insert (a : list Q) (i : nat) (x y : Q) :
  (i < length a)%nat -> setitem (<[i:=x]> a) i y = Returns (<[i:=y]> a).
Proof.
  intros H. rewrite setitem_lt by (rewrite length_insert; exact H).
  now rewrite list_insert_insert_eq.
Qed.

Lemma cells_Some (a : arrays) (k : nat) (s i r : Q) :
  cells a k = Some (s, i, r) <->
  arr_S a !! k = Some s /\ arr_I a !! k = Some i /\ arr_R a !! k = Some r.
Proof.
  unfold cells. split.
  - destruct (arr_S a !! k), (arr_I a !! k), (arr_R a !! k); simpl;
      try discriminate. intros [= -> -> ->]. auto.
  - intros (-> & -> & ->). reflexivity.
Qed.

Lemma loop_body_cells (N gamma beta : Q) (dia pos : option Q) (dt : Q)
    (t : list Q) (i : nat) (a : arrays) (t_i b : Q) (x : Q * Q * Q) :
  t !! i = Some t_i ->
  current_beta beta dia pos t_i = Some b ->
  cells a i = Some x ->
  (i + 1 < length (arr_S a))%nat ->
  (i + 1 < length (arr_I a))%nat ->
  (i + 1 < length (arr_R a))%nat ->
  loop_body N beta gamma dia pos dt t i a
  = Returns (Arrays
      (<[(i + 1)%nat := fst (fst (sir_next N gamma b dt x))]> (arr_S a))
      (<[(i + 1)%nat := snd (fst (sir_next N gamma b dt x))]> (arr_I a))
      (<[(i + 1)%nat := snd (sir_next N gamma b dt x)]> (arr_R a))).
Proof.
  intros Ht Hb Hx HS HI HR. destruct x as [[s j] r].
  apply cells_Some in Hx. destruct Hx as (Hs & Hj & Hr).
  unfold loop_body.
  rewrite (getitem_Some _ _ _ Ht), bind_Returns, Hb. simpl as_number.
  rewrite bind_Returns.
  rewrite (getitem_Some _ _ _ Hs), bind_Returns.
  rewrite (getitem_Some _ _ _ Hj), bind_Returns.
  rewrite (getitem_Some _ _ _ Hr), bind_Returns.
  repeat first
    [ rewrite bind_Returns
    | rewrite getitem_insert by assumption
    | rewrite setitem_insert by assumption
    | rewrite setitem_lt by assumption ].
  unfold sir_next, forward, clamp, renormalize.
  match goal with |- context [if ?c then _ else _] => destruct c end.
  - reflexivity.
  - reflexivity.
Qed.

(** ** The loop *)

Lemma for_range_snoc {St : Type} (body : nat -> St -> outcome St)
    (n i0 : nat) (st : St) :
  for_range i0 (Datatypes.S n) body st
  = (for_range i0 n body st ≫= body (i0 + n)%nat).
Proof.
  revert i0 st. induction n as [| n IH]; intros i0 st.
  - simpl. rewrite Nat.add_0_r. destruct (body i0 st); reflexivity.
  - change (for_range i0 (Datatypes.S (Datatypes.S n)) body st)
      with (body i0 st ≫= for_range (Datatypes.S i0) (Datatypes.S n) body).
    change (for_range i0 (Datatypes.S n) body st)
      with (body i0 st ≫= for_range (Datatypes.S i0) n body).
    destruct (body i0 st) as [st' | e]; [| reflexivity].
    rewrite !bind_Returns, IH. now rewrite Nat.add_succ_comm.
Qed.

Lemma for_range_raises_more {St : Type} (body : nat -> St -> outcome St)
    (n m i0 : nat) (st : St) (e : exn) :
  for_range i0 n body st = Raises e ->
  for_range i0 (n + m) body st = Raises e.
Proof.
  intros H. induction m as [| m IH].
  - now rewrite Nat.add_0_r.
  - rewrite Nat.add_succ_r, for_range_snoc, IH. reflexivity.
Qed.

(** The first step that fails a decidable test, if any does. *)
Lemma first_failure (ok : nat -> bool) (n : nat) :
  (forall k, (k < n)%nat -> ok k = true) \/
  (exists k, (k < n)%nat /\ ok k = false /\
             forall j, (j < k)%nat -> ok j = true).
Proof.
  induction n as [| n [IH | (k & Hk & Hf & Hmin)]].
  - left. intros k Hk. lia.
  - destruct (ok n) eqn:E.
    + left. intros k Hk. destruct (Nat.eq_dec k n) as [-> | Hne];
        [exact E | apply IH; lia].
    + right. exists n. auto.
  - right. exists k. split; [lia | auto].
Qed.

Section Run.

Variables N I0 R0_param beta gamma total_time : Q.
Variable time_steps : Z.
Variables intervencao_dia beta_pos_intervencao : option Q.

#[local] Abbreviation n := (Z.to_nat time_steps).
#[local] Abbreviation select := (current_beta beta intervencao_dia beta_pos_intervencao).
#[local] Abbreviation point := (time_point total_time time_steps).
#[local] Abbreviation dt := (step_size total_time time_steps).
#[local] Abbreviation body tl :=
  (loop_body N beta gamma intervencao_dia beta_pos_intervencao dt tl).
#[local] Abbreviation traj :=
  (trajectory N I0 R0_param beta gamma total_time time_steps
     intervencao_dia beta_pos_intervencao).
#[local] Abbreviation init := (initial_arrays N I0 R0_param time_steps).
#[local] Abbreviation full a := (full_length time_steps a).
#[local] Abbreviation run :=
  (run_sir_model N I0 R0_param beta gamma total_time time_steps
     intervencao_dia beta_pos_intervencao).

Hypothesis steps_pos : (0 < time_steps)%Z.

Lemma linspace_axis :
  exists tl,
    linspace 0 total_time (time_steps + 1) = Returns tl /\
    length tl = Datatypes.S n /\
    (forall k, (k < n)%nat -> tl !! k = Some (point k)) /\
    tl !! n = Some total_time.
Proof.
  unfold linspace.
  destruct (Z.ltb_spec (time_steps + 1) 0) as [? | _]; [lia |].
  destruct (Z.ltb_spec 1 (time_steps + 1)) as [_ | ?]; [| lia].
  replace (Z.to_nat (time_steps + 1)) with (Datatypes.S n) by lia.
  replace (Datatypes.S n - 1)%nat with n by lia.
  eexists. split; [reflexivity |].
  assert (Hlen : length ((fun k : nat =>
              inject_Z (Z.of_nat k)
              * ((total_time - 0) / inject_Z (time_steps + 1 - 1)) + 0)
            <$> seq 0 (Datatypes.S n)) = Datatypes.S n).
  { now rewrite length_fmap, length_seq. }
  split; [| split].
  - now rewrite length_insert.
  - intros k Hk. rewrite list_lookup_insert_ne by lia.
    rewrite list_lookup_fmap, lookup_seq_lt by lia. reflexivity.
  - apply list_lookup_insert_eq. lia.
Qed.

Lemma loop_prefix (tl : list Q) (k : nat) :
  (forall j, (j < n)%nat -> tl !! j = Some (point j)) ->
  (k <= n)%nat ->
  (forall j, (j < k)%nat -> is_Some (select (point j))) ->
  exists a,
    for_range 0 k (body tl) init = Returns a /\
    full a /\
    forall j, (j <= k)%nat -> cells a j = Some (traj j).
Proof.
  intros Htl. induction k as [| k IH]; intros Hk Hok.
  - exists init. split; [reflexivity |]. split.
    + unfold full_length, initial_arrays. simpl.
      now rewrite !length_replicate.
    + intros j Hj. assert (j = 0%nat) as -> by lia. reflexivity.
  - destruct IH as (a & Hrun & (HS & HI & HR) & Hcells);
      [lia | intros j Hj; apply Hok; lia |].
    destruct (Hok k) as [b Hb]; [lia |].
    rewrite for_range_snoc, Hrun, bind_Returns. simpl "+"%nat.
    rewrite (loop_body_cells _ _ _ _ _ _ _ _ _ (point k) b (traj k));
      [| apply Htl; lia | exact Hb | apply Hcells; lia | lia | lia | lia].
    eexists. split; [reflexivity |]. split.
    + unfold full_length. simpl. now rewrite !length_insert.
    + intros j Hj. destruct (Nat.eq_dec j (Datatypes.S k)) as [-> | Hne].
      * replace (k + 1)%nat with (Datatypes.S k) by lia.
        unfold cells. simpl arr_S. simpl arr_I. simpl arr_R.
        rewrite !list_lookup_insert_eq by lia.
        change (traj (Datatypes.S k))
          with (sir_next N gamma (rate beta total_time time_steps
                  intervencao_dia beta_pos_intervencao k) dt (traj k)).
        unfold rate. rewrite Hb. simpl default.
        now destruct (sir_next N gamma b dt (traj k)) as [[? ?] ?].
      * specialize (Hcells j ltac:(lia)).
        unfold cells in *. simpl arr_S. simpl arr_I. simpl arr_R.
        now rewrite !list_lookup_insert_ne by lia.
Qed.

Lemma loop_body_missing_rate (tl : list Q) (i : nat) (a : arrays) :
  tl !! i = Some (point i) -> select (point i) = None ->
  body tl i a = Raises TypeError.
Proof.
  intros Ht Hb. unfold loop_body.
  rewrite (getitem_Some _ _ _ Ht), bind_Returns, Hb. reflexivity.
Qed.

Lemma run_unfold :
  exists tl,
    length tl = Datatypes.S n /\
    (forall k, (k < n)%nat -> tl !! k = Some (point k)) /\
    tl !! n = Some total_time /\
    run = (for_range 0 n (body tl) init
           ≫= fun a => Returns (Result tl (arr_S a) (arr_I a) (arr_R a))).
Proof.
  destruct linspace_axis as (tl & Hlin & Hlen & Hpts & Hlast).
  exists tl. repeat split; try assumption.
  unfold run_sir_model, py_div.
  assert (E : Qeq_bool (inject_Z time_steps) 0 = false).
  { apply Qeq_bool_false. unfold Qeq. simpl. lia. }
  rewrite E, bind_Returns, Hlin, bind_Returns. unfold zeros.
  destruct (Z.ltb_spec (time_steps + 1) 0) as [? | _]; [lia |].
  replace (Z.to_nat (time_steps + 1)) with (Datatypes.S n) by lia.
  rewrite !bind_Returns.
  rewrite !setitem_lt by (rewrite length_replicate; lia).
  rewrite !bind_Returns. reflexivity.
Qed.

(** A run whose steps all find a rate returns, and its arrays hold the
    trajectory. *)
Lemma run_returns :
  rates_present beta total_time time_steps intervencao_dia
    beta_pos_intervencao ->
  exists res,
    run = Returns res /\
    (length (res_t res) = Datatypes.S n /\
     length (res_S res) = Datatypes.S n /\
     length (res_I res) = Datatypes.S n /\
     length (res_R res) = Datatypes.S n) /\
    (forall k, (k < n)%nat -> res_t res !! k = Some (point k)) /\
    res_t res !! n = Some total_time /\
    (forall k, (k <= n)%nat -> state_at res k = Some (traj k)).
Proof.
  intros Hok.
  destruct run_unfold as (tl & Hlen & Hpts & Hlast & ->).
  destruct (loop_prefix tl n Hpts (Nat.le_refl _) Hok)
    as (a & -> & (HS & HI & HR) & Hcells).
  rewrite bind_Returns. eexists. split; [reflexivity |]. simpl.
  repeat split; assumption.
Qed.

(** A run raises [TypeError] as soon as a step finds no rate. *)
Lemma run_raises :
  (exists k, (k < n)%nat /\ select (point k) = None) ->
  run = Raises TypeError.
Proof.
  intros (k & Hk & Hnone).
  destruct run_unfold as (tl & Hlen & Hpts & Hlast & ->).
  destruct (first_failure
              (fun j => bool_decide (is_Some (select (point j)))) n)
    as [Hall | (k0 & Hk0 & Hfail & Hmin)].
  - specialize (Hall k Hk). simpl in Hall. apply bool_decide_eq_true in Hall.
    rewrite Hnone in Hall. now destruct Hall.
  - simpl in Hfail, Hmin.
    assert (Hnone0 : select (point k0) = None).
    { apply bool_decide_eq_false in Hfail. now apply eq_None_not_Some. }
    destruct (loop_prefix tl k0 Hpts) as (a & Hrun & _);
      [lia | |].
    { intros j Hj. specialize (Hmin j Hj).
      now apply bool_decide_eq_true in Hmin. }
    assert (Hstop : for_range 0 (Datatypes.S k0) (body tl) init
                    = Raises TypeError).
    { rewrite for_range_snoc, Hrun, bind_Returns.
      apply loop_body_missing_rate; [apply Hpts; lia | exact Hnone0]. }
    pose proof (for_range_raises_more _ _ (n - Datatypes.S k0) _ _ _ Hstop)
      as Hmore.
    replace (Datatypes.S k0 + (n - Datatypes.S k0))%nat with n in Hmore by lia.
    rewrite Hmore. reflexivity.
Qed.

End Run.

(** ** The trajectory of a valid configuration *)

Section Trajectory.

Variables N I0 R0_param beta gamma total_time : Q.
Variable time_steps : Z.
Variables intervencao_dia beta_pos_intervencao : option Q.

#[local] Abbreviation n := (Z.to_nat time_steps).
#[local] Abbreviation select :=
  (current_beta beta intervencao_dia beta_pos_intervencao).
#[local] Abbreviation point := (time_point total_time time_steps).
#[local] Abbreviation dt := (step_size total_time time_steps).
#[local] Abbreviation traj :=
  (trajectory N I0 R0_param beta gamma total_time time_steps
     intervencao_dia beta_pos_intervencao).
#[local] Abbreviation valid :=
  (valid_config N I0 R0_param beta gamma total_time time_steps
     intervencao_dia beta_pos_intervencao).
#[local] Abbreviation run :=
  (run_sir_model N I0 R0_param beta gamma total_time time_steps
     intervencao_dia beta_pos_intervencao).

Lemma inject_Z_pos (z : Z) : (0 < z)%Z -> 0 < inject_Z z.
Proof. intros H. unfold Qlt. simpl. lia. Qed.

Lemma step_size_nonneg : 0 <= total_time -> (0 < time_steps)%Z -> 0 <= dt.
Proof.
  intros HT Hn. unfold step_size.
  apply Qle_shift_div_l; [now apply inject_Z_pos | lra].
Qed.

Lemma time_point_closed (k : nat) :
  point k == inject_Z (Z.of_nat k) * dt.
Proof.
  unfold time_point, step_size.
  replace (time_steps + 1 - 1)%Z with time_steps by lia.
  unfold Qdiv. ring.
Qed.

Lemma valid_rates_present :
  valid ->
  rates_present beta total_time time_steps intervencao_dia
    beta_pos_intervencao.
Proof.
  intros (_ & _ & _ & _ & _ & _ & _ & _ & _ & Hrate) k _.
  unfold current_beta. destruct intervencao_dia as [dia |]; [| eauto].
  destruct (Qle_bool dia (point k)); eauto.
Qed.

Lemma trajectory_total (k : nat) : 0 < N -> total3 (traj k) == N.
Proof.
  intros HN. induction k as [| k IH].
  - unfold total3. simpl. ring.
  - simpl. now apply sir_next_total.
Qed.

Lemma trajectory_bounds (k : nat) : valid -> in_bounds N (traj k).
Proof.
  intros (HN & HI0 & HI0N & HR0 & HR0N & _ & Hg & HT & Hn & _).
  induction k as [| k IH].
  - unfold in_bounds. simpl. repeat split; lra.
  - simpl. apply sir_next_bounds; try assumption; [lra |].
    apply step_size_nonneg; [lra | assumption].
Qed.

Lemma trajectory_no_infection (k : nat) :
  valid -> I0 == 0 ->
  exists s i r, traj k = (s, i, r) /\
    s == N - I0 - R0_param /\ i == 0 /\ r == R0_param.
Proof.
  intros (HN & HI0 & HI0N & HR0 & HR0N & _) Hzero.
  induction k as [| k (s & i & r & Hk & Hs & Hi & Hr)].
  - exists (N - I0 - R0_param), I0, R0_param. simpl. repeat split; lra.
  - simpl. rewrite Hk.
    destruct (sir_next_no_infection N gamma
                (rate beta total_time time_steps intervencao_dia
                   beta_pos_intervencao k) dt s i r)
      as (s' & i' & r' & Hnext & Hs' & Hi' & Hr'); try lra.
    exists s', i', r'. repeat split; [exact Hnext | lra | lra | lra].
Qed.

End Trajectory.

(** ** Properties of the result *)

Section Claims.

Variables N I0 R0_param beta gamma total_time : Q.
Variable time_steps : Z.
Variables intervencao_dia beta_pos_intervencao : option Q.

#[local] Abbreviation n := (Z.to_nat time_steps).
#[local] Abbreviation traj :=
  (trajectory N I0 R0_param beta gamma total_time time_steps
     intervencao_dia beta_pos_intervencao).
#[local] Abbreviation valid :=
  (valid_config N I0 R0_param beta gamma total_time time_steps
     intervencao_dia beta_pos_intervencao).
#[local] Abbreviation present :=
  (rates_present beta total_time time_steps intervencao_dia
     beta_pos_intervencao).
#[local] Abbreviation run :=
  (run_sir_model N I0 R0_param beta gamma total_time time_steps
     intervencao_dia beta_pos_intervencao).

Lemma valid_steps_pos : valid -> (0 < time_steps)%Z.
Proof. intros (_ & _ & _ & _ & _ & _ & _ & _ & H & _). exact H. Qed.

Lemma valid_population_pos : valid -> 0 < N.
Proof. intros (H & _). exact H. Qed.

Lemma run_valid :
  valid ->
  exists res,
    run = Returns res /\
    forall k, (k <= n)%nat -> state_at res k = Some (traj k).
Proof.
  intros Hv.
  destruct (run_returns N I0 R0_param beta gamma total_time time_steps
              intervencao_dia beta_pos_intervencao (valid_steps_pos Hv)
              (valid_rates_present _ _ _ _ _ _ _ _ _ Hv))
    as (res & Hrun & _ & _ & _ & Hst).
  eauto.
Qed.


(** In exact arithmetic no compartment is negative and [R] stays at or
    below [N].  (In binary64 the rescaling can lift [R] above [N]; the
    module [Binary64] has the run that shows it and what remains true.) *)
Lemma exact_non_negativity :
  valid_config N I0 R0_param beta gamma total_time time_steps
    intervencao_dia beta_pos_intervencao ->
  exists res,
    run_sir_model N I0 R0_param beta gamma total_time time_steps
      intervencao_dia beta_pos_intervencao
    = Returns res /\
    forall k, (k <= Z.to_nat time_steps)%nat ->
      exists s i r, state_at res k = Some (s, i, r) /\
        0 <= s /\ 0 <= i /\ 0 <= r /\ r <= N.
Proof.
  intros Hv. destruct (run_valid Hv) as (res & Hrun & Hst).
  exists res. split; [exact Hrun |]. intros k Hk.
  pose proof (trajectory_bounds N I0 R0_param beta gamma total_time time_steps
                intervencao_dia beta_pos_intervencao k Hv) as Hb.
  specialize (Hst k Hk). destruct (traj k) as [[s i] r].
  exists s, i, r. split; [exact Hst | exact Hb].
Qed.

(** In exact arithmetic [S[k] <= N] and [I[k] <= N] at every index,
    although the loop caps only [R] at [N]: the other two compartments are
    not negative and the three sum to [N].  (In binary64 the rescaling can
    lift a compartment above [N] by rounding; the module [Binary64] has the
    run that shows it and what remains true.) *)
Lemma exact_at_most_population :
  valid_config N I0 R0_param beta gamma total_time time_steps
    intervencao_dia beta_pos_intervencao ->
  exists res,
    run_sir_model N I0 R0_param beta gamma total_time time_steps
      intervencao_dia beta_pos_intervencao
    = Returns res /\
    forall k, (k <= Z.to_nat time_steps)%nat ->
      exists s i r, state_at res k = Some (s, i, r) /\ s <= N /\ i <= N.
Proof.
  intros Hv. destruct (run_valid Hv) as (res & Hrun & Hst).
  exists res. split; [exact Hrun |]. intros k Hk.
  pose proof (trajectory_bounds N I0 R0_param beta gamma total_time time_steps
                intervencao_dia beta_pos_intervencao k Hv) as Hb.
  pose proof (trajectory_total N I0 R0_param beta gamma total_time time_steps
                intervencao_dia beta_pos_intervencao k
                (valid_population_pos Hv)) as Htot.
  specialize (Hst k Hk). destruct (traj k) as [[s i] r].
  unfold in_bounds, total3 in *. simpl in *.
  exists s, i, r. split; [exact Hst | split; lra].
Qed.

(** In exact arithmetic a run without infected at the start keeps
    [I[k] = 0] and [S[k] = N - R0_param] at every index.  (In binary64 the
    rescaling moves [S]; the module [Binary64] has the run that shows it and
    what remains true.) *)
Lemma exact_no_infected :
  valid_config N I0 R0_param beta gamma total_time time_steps
    intervencao_dia beta_pos_intervencao -> I0 == 0 ->
  exists res,
    run_sir_model N I0 R0_param beta gamma total_time time_steps
      intervencao_dia beta_pos_intervencao
    = Returns res /\
    forall k, (k <= Z.to_nat time_steps)%nat ->
      exists s i r, state_at res k = Some (s, i, r) /\
        i == 0 /\ s == N - R0_param.
Proof.
  intros Hv Hzero. destruct (run_valid Hv) as (res & Hrun & Hst).
  exists res. split; [exact Hrun |]. intros k Hk.
  destruct (trajectory_no_infection N I0 R0_param beta gamma total_time
              time_steps intervencao_dia beta_pos_intervencao k Hv Hzero)
    as (s & i & r & Htraj & Hs & Hi & _).
  exists s, i, r. rewrite (Hst k Hk), Htraj. repeat split; lra.
Qed.

(** Every step of a run that returns is [sir_next] at the rate selected at
    the step's start time. *)
Lemma run_steps :
  (0 < time_steps)%Z -> present ->
  exists res,
    run = Returns res /\
    (length (res_t res) = Datatypes.S n /\
     length (res_S res) = Datatypes.S n /\
     length (res_I res) = Datatypes.S n /\
     length (res_R res) = Datatypes.S n) /\
    res_t res !! n = Some total_time /\
    forall k, (k < n)%nat ->
      exists b x,
        res_t res !! k = Some (time_point total_time time_steps k) /\
        current_beta beta intervencao_dia beta_pos_intervencao
          (time_point total_time time_steps k) = Some b /\
        state_at res k = Some x /\
        state_at res (k + 1)
        = Some (sir_next N gamma b (step_size total_time time_steps) x).
Proof.
  intros Hpos Hok.
  destruct (run_returns N I0 R0_param beta gamma total_time time_steps
              intervencao_dia beta_pos_intervencao Hpos Hok)
    as (res & Hrun & Hlen & Hpts & Hlast & Hst).
  exists res. repeat split; try tauto. intros k Hk.
  destruct (Hok k Hk) as [b Hb]. exists b, (traj k).
  repeat split; [now apply Hpts | exact Hb | apply Hst; lia |].
  rewrite Hst by lia. replace (k + 1)%nat with (Datatypes.S k) by lia.
  simpl. unfold rate. now rewrite Hb.
Qed.


(** In exact arithmetic the time axis is evenly spaced: its [k]-th value is
    [k * total_time / time_steps] and consecutive values differ by
    [total_time / time_steps].  (In binary64 they do so up to rounding; the
    module [Binary64] has the axis as [np.linspace] computes it.) *)
Lemma exact_result_shape :
  valid_config N I0 R0_param beta gamma total_time time_steps
    intervencao_dia beta_pos_intervencao ->
  exists res,
    run_sir_model N I0 R0_param beta gamma total_time time_steps
      intervencao_dia beta_pos_intervencao
    = Returns res /\
    (Z.of_nat (length (res_t res)) = time_steps + 1 /\
     Z.of_nat (length (res_S res)) = time_steps + 1 /\
     Z.of_nat (length (res_I res)) = time_steps + 1 /\
     Z.of_nat (length (res_R res)) = time_steps + 1)%Z /\
    (exists t_0, res_t res !! 0%nat = Some t_0 /\ t_0 == 0) /\
    res_t res !! Z.to_nat time_steps = Some total_time /\
    (forall k, (k <= Z.to_nat time_steps)%nat ->
       exists t_k, res_t res !! k = Some t_k /\
         t_k == inject_Z (Z.of_nat k) * (total_time / inject_Z time_steps)) /\
    (forall k, (k < Z.to_nat time_steps)%nat ->
       exists t_k t_k1,
         res_t res !! k = Some t_k /\ res_t res !! (k + 1)%nat = Some t_k1 /\
         t_k1 - t_k == total_time / inject_Z time_steps).
Proof.
  intros Hv. pose proof (valid_steps_pos Hv) as Hpos.
  destruct (run_steps Hpos (valid_rates_present _ _ _ _ _ _ _ _ _ Hv))
    as (res & Hrun & (Ht & HS & HI & HR) & Hlast & Hstep).
  assert (Hpt : forall k, (k < n)%nat ->
            res_t res !! k = Some (time_point total_time time_steps k)).
  { intros k Hk. destruct (Hstep k Hk) as (? & ? & H & _). exact H. }
  assert (Hn : ~ inject_Z time_steps == 0).
  { pose proof (inject_Z_pos time_steps Hpos). lra. }
  assert (Hend : total_time
                 == inject_Z (Z.of_nat n) * (total_time / inject_Z time_steps)).
  { rewrite Z2Nat.id by lia. field. exact Hn. }
  assert (Hall : forall k, (k <= n)%nat ->
            exists t_k, res_t res !! k = Some t_k /\
              t_k == inject_Z (Z.of_nat k) * (total_time / inject_Z time_steps)).
  { intros k Hk. destruct (Nat.eq_dec k n) as [-> | Hne].
    - exists total_time. split; [exact Hlast | exact Hend].
    - exists (time_point total_time time_steps k).
      split; [apply Hpt; lia | apply time_point_closed]. }
  exists res. split; [exact Hrun |].
  split; [rewrite Ht, HS, HI, HR; lia |].
  split; [| split; [exact Hlast | split; [exact Hall |]]].
  - exists (time_point total_time time_steps 0). split; [apply Hpt; lia |].
    rewrite time_point_closed. simpl. ring.
  - intros k Hk.
    destruct (Hall k ltac:(lia)) as (t_k & Hk1 & Hk2).
    destruct (Hall (k + 1)%nat ltac:(lia)) as (t_k1 & Hk3 & Hk4).
    exists t_k, t_k1. repeat split; try assumption.
    rewrite Hk2, Hk4, Nat2Z.inj_add, inject_Z_plus. simpl. ring.
Qed.

End Claims.

(** ** The intervention *)

(** C10. Without an intervention time the intervention rate is never read:
    two calls that differ only in [beta_pos_intervencao] have the same
    outcome, time axis and compartment sequences included. *)
Theorem intervention_rate_unused
    (N I0 R0_param beta gamma total_time : Q) (time_steps : Z)
    (rate1 rate2 : option Q) :
  run_sir_model N I0 R0_param beta gamma total_time time_steps None rate1
  = run_sir_model N I0 R0_param beta gamma total_time time_steps None rate2.
Proof. reflexivity. Qed.

(** ** Configurations that are not valid *)


(** ** Concrete runs *)

(** The first step of a population of 1000 with one infected:
    [S[1] = 999 - 0.5 * 999 * 1 / 1000 = 998.5005],
    [I[1] = 1 + (0.5 * 999 * 1 / 1000 - 0.1 * 1) * 1 = 1.3995],
    [R[1] = 0.1]; the total is 1000 and nothing is rescaled. *)
Example first_step :
  exists res,
    run_sir_model 1000 1 0 (1#2) (1#10) 4 4 None None = Returns res /\
    Qred <$> res_t res = [0; 1; 2; 3; 4] /\
    Qred <$> res_S res !! 1%nat = Some (1997001 # 2000) /\
    Qred <$> res_I res !! 1%nat = Some (2799 # 2000) /\
    Qred <$> res_R res !! 1%nat = Some (1 # 10).
Proof. eexists. split; [vm_compute; reflexivity |]. vm_compute. repeat split. Qed.

(** The skipped branch of the renormalization: a zero total is left alone. *)
Example renormalize_zero_total : renormalize 1000 (0, 0, 0) = (0, 0, 0).
Proof. reflexivity. Qed.

(** The taken branch: the triple is scaled to sum to the population. *)
Example renormalize_scales :
  renormalize 10 (4, 4, 8) = (4 * (10 / 16), 4 * (10 / 16), 8 * (10 / 16)).
Proof. reflexivity. Qed.

(** An intervention time without a rate raises at the first step that
    starts at or after it, here the second. *)
Example missing_rate_raises :
  run_sir_model 10 0 0 (1#2) (1#10) 4 2 (Some 1) None = Raises TypeError.
Proof. reflexivity. Qed.

(** ** The theorems at concrete configurations *)

Ltac valid_scenario :=
  unfold valid_config; repeat split; try lra; try lia;
  try (intros H; exact H); eauto.



(** * Further properties of the integrator *)

(** ** The run depends on the intervention only through the selected rates *)

Lemma for_range_ext {St : Type} (body1 body2 : nat -> St -> outcome St)
    (n i0 : nat) (st : St) :
  (forall i st', (i0 <= i < i0 + n)%nat -> body1 i st' = body2 i st') ->
  for_range i0 n body1 st = for_range i0 n body2 st.
Proof.
  revert i0 st. induction n as [| n IH]; intros i0 st Hext; [reflexivity |].
  simpl. rewrite (Hext i0 st) by lia.
  destruct (body2 i0 st) as [st' | e]; [| reflexivity].
  rewrite !bind_Returns. apply IH. intros i st'' Hi. apply Hext. lia.
Qed.

Lemma loop_body_ext (N gamma dt : Q) (beta1 beta2 : Q)
    (dia1 pos1 dia2 pos2 : option Q) (tl : list Q) (i : nat) (t_i : Q)
    (a : arrays) :
  tl !! i = Some t_i ->
  current_beta beta1 dia1 pos1 t_i = current_beta beta2 dia2 pos2 t_i ->
  loop_body N beta1 gamma dia1 pos1 dt tl i a
  = loop_body N beta2 gamma dia2 pos2 dt tl i a.
Proof.
  intros Ht Hsel. unfold loop_body.
  rewrite (getitem_Some _ _ _ Ht), !bind_Returns, Hsel. reflexivity.
Qed.

Section Rates.

Variables N I0 R0_param gamma total_time : Q.
Variable time_steps : Z.

#[local] Abbreviation n := (Z.to_nat time_steps).
#[local] Abbreviation point := (time_point total_time time_steps).

Lemma run_early_error (beta1 beta2 : Q) (dia1 pos1 dia2 pos2 : option Q) :
  (time_steps <= 0)%Z ->
  run_sir_model N I0 R0_param beta1 gamma total_time time_steps dia1 pos1
  = run_sir_model N I0 R0_param beta2 gamma total_time time_steps dia2 pos2.
Proof.
  intros Hle.
  assert (Hcases : time_steps = 0%Z \/ time_steps = (-1)%Z
                   \/ (time_steps < -1)%Z) by lia.
  destruct Hcases as [-> | [-> | Hneg]]; [reflexivity | reflexivity |].
  unfold run_sir_model, py_div.
  assert (E : Qeq_bool (inject_Z time_steps) 0 = false).
  { apply Qeq_bool_false. unfold Qeq. simpl. lia. }
  rewrite E, !bind_Returns. unfold linspace.
  destruct (Z.ltb_spec (time_steps + 1) 0); [reflexivity | lia].
Qed.

Lemma run_rates_ext (beta1 beta2 : Q) (dia1 pos1 dia2 pos2 : option Q) :
  (0 < time_steps)%Z ->
  (forall k, (k < n)%nat ->
     current_beta beta1 dia1 pos1 (point k)
     = current_beta beta2 dia2 pos2 (point k)) ->
  run_sir_model N I0 R0_param beta1 gamma total_time time_steps dia1 pos1
  = run_sir_model N I0 R0_param beta2 gamma total_time time_steps dia2 pos2.
Proof.
  intros Hpos Hsel.
  destruct (linspace_axis total_time time_steps Hpos)
    as (tl & Hlin & _ & Hpts & _).
  unfold run_sir_model. destruct (py_div _ _) as [dt | e]; [| reflexivity].
  rewrite !bind_Returns, Hlin, !bind_Returns.
  destruct (zeros (time_steps + 1)) as [z | e]; [| reflexivity].
  rewrite !bind_Returns.
  destruct (setitem z 0 I0) as [zi | e]; [| reflexivity].
  rewrite !bind_Returns.
  destruct (setitem z 0 R0_param) as [zr | e]; [| reflexivity].
  rewrite !bind_Returns.
  destruct (setitem z 0 (N - I0 - R0_param)) as [zs | e]; [| reflexivity].
  rewrite !bind_Returns.
  rewrite (for_range_ext (loop_body N beta1 gamma dia1 pos1 dt tl)
             (loop_body N beta2 gamma dia2 pos2 dt tl)); [reflexivity |].
  intros i st Hi. apply (loop_body_ext _ _ _ _ _ _ _ _ _ _ _ (point i)).
  - apply Hpts. lia.
  - apply Hsel. lia.
Qed.



(** X7. An intervention rate equal to the baseline rate changes nothing: the
    outcome is that of the run without intervention, whatever the
    intervention time is. *)
Theorem same_rate_intervention_no_effect (beta T : Q) (pos : option Q) :
  run_sir_model N I0 R0_param beta gamma total_time time_steps
    (Some T) (Some beta)
  = run_sir_model N I0 R0_param beta gamma total_time time_steps None pos.
Proof.
  destruct (Z_lt_le_dec 0 time_steps) as [Hpos | Hle].
  - apply run_rates_ext; [exact Hpos |]. intros k _. unfold current_beta.
    now destruct (Qle_bool T (point k)).
  - now apply run_early_error.
Qed.



End Rates.

(** * The peak that the comparison chart marks *)

(** [np.max(a)] on a one-dimensional array: the first of the largest values;
    numpy raises [ValueError] on an empty array. *)
Fixpoint max_from (best : Q) (l : list Q) : Q :=
  match l with
  | [] => best
  | x :: l' => max_from (if Qltb best x then x else best) l'
  end.

Definition np_max (a : list Q) : outcome Q :=
  match a with
  | [] => Raises ValueError
  | x :: l => Returns (max_from x l)
  end.

(** [np.argmax(a)]: the index of the first occurrence of the largest value;
    [ValueError] on an empty array. *)
Fixpoint argmax_from (best_i : nat) (best : Q) (i : nat) (l : list Q) : nat :=
  match l with
  | [] => best_i
  | x :: l' =>
      if Qltb best x then argmax_from i x (Datatypes.S i) l'
      else argmax_from best_i best (Datatypes.S i) l'
  end.

Definition np_argmax (a : list Q) : outcome nat :=
  match a with
  | [] => Raises ValueError
  | x :: l => Returns (argmax_from 0 x 1 l)
  end.

(** Lines 184-189 of [plot_sir_comparison], on sequences of numbers:
    [plt.plot(t, I)] draws the curve and raises [ValueError] when the two
    sequences differ in length; then [pico_I = np.max(I)] and
    [dia_pico = t[np.argmax(I)]] give the point the chart marks and
    annotates.  What the drawing calls put on the chart is an effect and is
    not modelled. *)
Definition peak_marker (t I : list Q) : outcome (Q * Q) :=
  if (length t =? length I)%nat then
    pico_I ← np_max I;
    idx ← np_argmax I;
    dia_pico ← getitem t idx;
    mret (dia_pico, pico_I)
  else Raises ValueError.

(** [idx] is the first index of [l] that holds the largest value [m]. *)
Definition first_max (l : list Q) (idx : nat) (m : Q) : Prop :=
  l !! idx = Some m /\
  (forall j x, l !! j = Some x -> x <= m) /\
  (forall j x, (j < idx)%nat -> l !! j = Some x -> x < m).

Lemma first_max_snoc_le (pre : list Q) (idx : nat) (m x : Q) :
  first_max pre idx m -> x <= m -> first_max (pre ++ [x]) idx m.
Proof.
  intros (Hidx & Hall & Hfirst) Hx.
  pose proof (lookup_lt_Some _ _ _ Hidx) as Hlt.
  split; [| split].
  - rewrite lookup_app_l by exact Hlt. exact Hidx.
  - intros j y Hj. apply lookup_app_Some in Hj.
    destruct Hj as [Hj | (_ & Hj)]; [eauto |].
    apply list_lookup_singleton_Some in Hj. destruct Hj as (_ & <-). exact Hx.
  - intros j y Hji Hj. rewrite lookup_app_l in Hj by lia. eauto.
Qed.

Lemma first_max_snoc_lt (pre : list Q) (idx : nat) (m x : Q) :
  first_max pre idx m -> m < x -> first_max (pre ++ [x]) (length pre) x.
Proof.
  intros (Hidx & Hall & Hfirst) Hx. split; [| split].
  - rewrite lookup_app_r by lia. now rewrite Nat.sub_diag.
  - intros j y Hj. apply lookup_app_Some in Hj.
    destruct Hj as [Hj | (_ & Hj)].
    + specialize (Hall j y Hj). lra.
    + apply list_lookup_singleton_Some in Hj. destruct Hj as (_ & <-). lra.
  - intros j y Hji Hj. rewrite lookup_app_l in Hj by lia.
    specialize (Hall j y Hj). lra.
Qed.

Lemma argmax_from_first_max (l pre : list Q) (idx : nat) (m : Q) :
  first_max pre idx m ->
  first_max (pre ++ l) (argmax_from idx m (length pre) l) (max_from m l).
Proof.
  revert pre idx m. induction l as [| x l IH]; intros pre idx m Hpre.
  - simpl. now rewrite app_nil_r.
  - simpl. rewrite cons_middle, app_assoc.
    replace (Datatypes.S (length pre)) with (length (pre ++ [x]))
      by (rewrite length_app; simpl; lia).
    destruct (Qltb m x) eqn:E.
    + apply Qltb_true in E. apply IH. now apply first_max_snoc_lt with idx m.
    + apply Qltb_false in E. apply IH. now apply first_max_snoc_le.
Qed.

(** On a non-empty array [np.max] and [np.argmax] return, and agree: the
    index is in range, it is the first index that holds the largest value,
    and that value is what [np.max] returns.  On an empty array both raise
    [ValueError]. *)
Lemma np_argmax_first_max (a : list Q) :
  (a = [] -> np_max a = Raises ValueError /\ np_argmax a = Raises ValueError)
  /\
  (a <> [] ->
   exists idx m,
     np_max a = Returns m /\ np_argmax a = Returns idx /\
     (idx < length a)%nat /\ first_max a idx m).
Proof.
  split; [intros ->; split; reflexivity |].
  destruct a as [| x l]; [congruence |]. intros _.
  exists (argmax_from 0 x 1 l), (max_from x l).
  split; [reflexivity |]. split; [reflexivity |].
  assert (H0 : first_max [x] 0 x).
  { split; [reflexivity |]. split.
    - intros j y Hj. apply list_lookup_singleton_Some in Hj.
      destruct Hj as (_ & <-). lra.
    - intros j y Hj. lia. }
  pose proof (argmax_from_first_max l [x] 0 x H0) as H. simpl in H.
  split; [| exact H]. destruct H as (Hidx & _).
  exact (lookup_lt_Some _ _ _ Hidx).
Qed.

Lemma peak_marker_returns (t I : list Q) :
  I <> [] -> length t = length I ->
  exists idx dia_pico pico_I,
    peak_marker t I = Returns (dia_pico, pico_I) /\
    first_max I idx pico_I /\
    t !! idx = Some dia_pico.
Proof.
  intros Hne Hlen.
  destruct (proj2 (np_argmax_first_max I) Hne)
    as (idx & m & Hmax & Harg & Hidx & Hfirst).
  destruct (lookup_lt_is_Some_2 t idx ltac:(lia)) as [dia Hdia].
  exists idx, dia, m. unfold peak_marker.
  rewrite (proj2 (Nat.eqb_eq _ _) Hlen).
  rewrite Hmax, bind_Returns, Harg, bind_Returns.
  rewrite (getitem_Some _ _ _ Hdia), bind_Returns. auto.
Qed.

(** X13. The marked peak, for sequences of numbers: when the time axis and
    the infected sequence differ in length the drawing of the curve raises
    [ValueError]; with no infected values there is nothing to mark and
    [ValueError] is raised as well; otherwise the marker is
    [(t[idx], I[idx])] for the first index [idx] at which [I] is largest. *)
Theorem peak_marker_spec (t I : list Q) :
  (length t <> length I -> peak_marker t I = Raises ValueError) /\
  (I = [] -> peak_marker t I = Raises ValueError) /\
  (I <> [] -> length t = length I ->
   exists idx dia_pico pico_I,
     peak_marker t I = Returns (dia_pico, pico_I) /\
     first_max I idx pico_I /\
     t !! idx = Some dia_pico).
Proof.
  split; [| split].
  - intros Hlen. unfold peak_marker.
    now rewrite (proj2 (Nat.eqb_neq _ _) Hlen).
  - intros ->. unfold peak_marker. now destruct (length t =? length [])%nat.
  - apply peak_marker_returns.
Qed.


(** * The scenario table and the main loop *)

(** One dictionary of [datas].  The keys every scenario has are fields; the
    two keys only some have, read with [data.get], are options. *)
Record scenario : Type := Scenario {
  d_nome : string;
  d_N : Q;
  d_I0 : Q;
  d_R0_param : Q;
  d_beta : Q;
  d_gamma : Q;
  d_intervencao_dia : option Q;
  d_beta_pos_intervencao : option Q;
  d_total_time : Q;
  d_time_steps : Z;
  d_cor : string
}.

(** Lines 15-62. *)
Definition datas : list scenario :=
  [ Scenario "Cenário 1: Doença Altamente Contagiosa (Alta beta)"
      100000 10 0 0.5 0.1 None None 200 200 "red";
    Scenario "Cenário 2: Doença Levemente Contagiosa (Baixa beta)"
      100000 10 0 0.2 0.1 None None 200 200 "blue";
    Scenario "Cenário 3: Intervenção Tardia (Redução de beta)"
      100000 10 0 0.5 0.1 (Some 50) (Some 0.15) 200 200 "green";
    Scenario "Cenário 4: Recuperação Lenta (Baixa gamma)"
      100000 10 0 0.3 0.05 None None 200 200 "purple" ].

(** One dictionary of [all_results] (lines 240-246). *)
Record entry : Type := Entry {
  e_t : list Q;
  e_S : list Q;
  e_I : list Q;
  e_R : list Q;
  e_nome : string;
  e_cor : string;
  e_beta : Q;
  e_gamma : Q
}.

(** Lines 224-237: the call of [run_sir_model] on one scenario. *)
Definition run_scenario (data : scenario) : outcome result :=
  run_sir_model (d_N data) (d_I0 data) (d_R0_param data) (d_beta data)
    (d_gamma data) (d_total_time data) (d_time_steps data)
    (d_intervencao_dia data) (d_beta_pos_intervencao data).

Definition result_entry (data : scenario) (r : result) : entry :=
  Entry (res_t r) (res_S r) (res_I r) (res_R r)
        (d_nome data) (d_cor data) (d_beta data) (d_gamma data).

(** Lines 142 and 182: [R0_calc = beta / gamma], the number shown in the
    titles and legends of the charts; a division of two Python numbers. *)
Definition R0_calc (beta gamma : Q) : outcome Q := py_div beta gamma.

(** Lines 220-249: the loop of the main program over the scenarios, with the
    list [all_results] it appends to.  Every iteration ends with a call of
    [plot_single_sir_curve], whose one computation is [R0_calc]; printing,
    drawing and saving are effects and are not modelled. *)
Fixpoint simulate (ds : list scenario) (all_results : list entry)
    : outcome (list entry) :=
  match ds with
  | [] => Returns all_results
  | data :: ds' =>
      r ← run_scenario data;
      let all_results := all_results ++ [result_entry data r] in
      _ ← R0_calc (d_beta data) (d_gamma data);
      simulate ds' all_results
  end.

(** Lines 174-192 of [plot_sir_comparison]: for every result, in order, the
    legend's [R0_calc] and then the peak marker. *)
Fixpoint comparison_peaks (results : list entry) : outcome (list (Q * Q)) :=
  match results with
  | [] => Returns []
  | result :: rest =>
      _ ← R0_calc (e_beta result) (e_gamma result);
      p ← peak_marker (e_t result) (e_I result);
      ps ← comparison_peaks rest;
      mret (p :: ps)
  end.

(** Lines 216-253: the main program on a table [ds]: the loop, then
    [N_total = datas[0]["N"]], then the comparison chart. *)
Definition main_program (ds : list scenario)
    : outcome (list entry * Q * list (Q * Q)) :=
  all_results ← simulate ds [];
  N_total ← match ds with
            | [] => Raises IndexError
            | data :: _ => Returns (d_N data)
            end;
  peaks ← comparison_peaks all_results;
  mret (all_results, N_total, peaks).

Definition valid_scenario (data : scenario) : Prop :=
  valid_config (d_N data) (d_I0 data) (d_R0_param data) (d_beta data)
    (d_gamma data) (d_total_time data) (d_time_steps data)
    (d_intervencao_dia data) (d_beta_pos_intervencao data).

(** A scenario's entry of [all_results]. *)
Definition entry_of (data : scenario) (e : entry) : Prop :=
  exists r, run_scenario data = Returns r /\ e = result_entry data r.

(** An iteration of the main loop goes through: the run returns and
    [gamma] is not [0]. *)
Definition iteration_passes (data : scenario) : Prop :=
  (exists r, run_scenario data = Returns r) /\ ~ d_gamma data == 0.

Lemma R0_calc_returns (beta gamma : Q) :
  ~ gamma == 0 -> R0_calc beta gamma = Returns (beta / gamma).
Proof.
  intros H. unfold R0_calc, py_div.
  now rewrite (proj2 (Qeq_bool_false gamma 0) H).
Qed.


Lemma valid_scenario_passes (data : scenario) :
  valid_scenario data -> iteration_passes data.
Proof.
  intros Hd. split.
  - destruct (run_valid _ _ _ _ _ _ _ _ _ Hd) as (r & Hr & _). eauto.
  - destruct Hd as (_ & _ & _ & _ & _ & _ & Hg & _). lra.
Qed.

Lemma simulate_passes (ds : list scenario) (acc : list entry) :
  Forall iteration_passes ds ->
  exists es, simulate ds acc = Returns (acc ++ es) /\ Forall2 entry_of ds es.
Proof.
  intros Hv. revert acc.
  induction Hv as [| data ds ((r & Hr) & Hg) _ IH]; intros acc.
  - exists []. split; [simpl; now rewrite app_nil_r | constructor].
  - destruct (IH (acc ++ [result_entry data r])) as (es & Hes & Hall).
    exists (result_entry data r :: es). split.
    + simpl. rewrite Hr, bind_Returns, (R0_calc_returns _ _ Hg), bind_Returns.
      rewrite Hes. now rewrite <- app_assoc.
    + constructor; [exists r; auto | exact Hall].
Qed.

Lemma Forall_valid_passes (ds : list scenario) :
  Forall valid_scenario ds -> Forall iteration_passes ds.
Proof.
  intros H. eapply Forall_impl; [exact H | exact valid_scenario_passes].
Qed.

(** X15. The main loop over valid scenarios raises nothing and collects one entry
    per scenario, in order: entry [k] holds the four arrays that
    [run_sir_model] returns for scenario [k], with that scenario's name,
    colour and rates. *)
Theorem main_loop_valid (ds : list scenario) :
  Forall valid_scenario ds ->
  exists all_results,
    simulate ds [] = Returns all_results /\
    length all_results = length ds /\
    forall k data, ds !! k = Some data ->
      exists r,
        run_scenario data = Returns r /\
        all_results !! k = Some (result_entry data r).
Proof.
  intros Hv.
  destruct (simulate_passes ds [] (Forall_valid_passes ds Hv))
    as (es & Hes & Hall).
  exists es. split; [exact Hes |].
  split; [symmetry; exact (Forall2_length _ _ _ Hall) |].
  intros k data Hk.
  destruct (Forall2_lookup_l _ _ _ _ _ Hall Hk) as (e & He & r & Hr & ->).
  eauto.
Qed.


Lemma comparison_peaks_entries (ds : list scenario) (es : list entry) :
  Forall valid_scenario ds -> Forall2 entry_of ds es ->
  exists peaks,
    comparison_peaks es = Returns peaks /\
    Forall2 (fun e p => peak_marker (e_t e) (e_I e) = Returns p) es peaks.
Proof.
  intros Hv Hall. revert Hv.
  induction Hall as [| data e ds es (r & Hr & ->) _ IH]; intros Hv.
  - exists []. split; [reflexivity | constructor].
  - apply Forall_cons in Hv. destruct Hv as (Hd & Hv).
    destruct (IH Hv) as (peaks & Hpeaks & Hps).
    pose proof (valid_steps_pos _ _ _ _ _ _ _ _ _ Hd) as Hpos.
    destruct (valid_scenario_passes data Hd) as (_ & Hg).
    destruct (run_returns (d_N data) (d_I0 data) (d_R0_param data)
                (d_beta data) (d_gamma data) (d_total_time data)
                (d_time_steps data) (d_intervencao_dia data)
                (d_beta_pos_intervencao data) Hpos
                (valid_rates_present _ _ _ _ _ _ _ _ _ Hd))
      as (r' & Hr' & (Hlt & _ & HlI & _) & _).
    fold (run_scenario data) in Hr'. rewrite Hr in Hr'. injection Hr' as <-.
    assert (Hne : res_I r <> []) by (intros E; rewrite E in HlI; discriminate).
    destruct (peak_marker_returns (res_t r) (res_I r) Hne ltac:(lia))
      as (idx & dia & pico & Hpeak & _).
    exists ((dia, pico) :: peaks). split.
    + simpl. rewrite (R0_calc_returns _ _ Hg), bind_Returns.
      rewrite Hpeak, bind_Returns, Hpeaks. reflexivity.
    + constructor; [exact Hpeak | exact Hps].
Qed.

(** X17. From the table to the comparison chart.  On an empty table the program
    raises [IndexError] when it reads [datas[0]].  On a non-empty table of
    valid scenarios it raises nothing: the loop returns its results,
    [N_total] is the population of the first scenario, and the comparison
    chart gets one peak marker per scenario, in order, each the
    [peak_marker] of that scenario's time axis and infected sequence. *)
Theorem main_program_valid (ds : list scenario) :
  (ds = [] -> main_program ds = Raises IndexError) /\
  (Forall valid_scenario ds -> ds <> [] ->
   exists all_results N_total peaks,
     main_program ds = Returns (all_results, N_total, peaks) /\
     simulate ds [] = Returns all_results /\
     d_N <$> head ds = Some N_total /\
     length peaks = length ds /\
     forall k data, ds !! k = Some data ->
       exists r p,
         run_scenario data = Returns r /\
         peak_marker (res_t r) (res_I r) = Returns p /\
         peaks !! k = Some p).
Proof.
  split; [intros ->; reflexivity |]. intros Hv Hne.
  destruct (simulate_passes ds [] (Forall_valid_passes ds Hv))
    as (es & Hes & Hall).
  change ([] ++ es) with es in Hes.
  destruct (comparison_peaks_entries ds es Hv Hall) as (peaks & Hpeaks & Hps).
  destruct ds as [| data0 ds0]; [congruence |].
  exists es, (d_N data0), peaks. unfold main_program.
  rewrite Hes, bind_Returns.
  change (match data0 :: ds0 with
          | [] => Raises IndexError
          | data :: _ => Returns (d_N data)
          end) with (@Returns Q (d_N data0)).
  rewrite bind_Returns, Hpeaks, bind_Returns.
  split; [reflexivity |]. split; [reflexivity |]. split; [reflexivity |].
  split.
  - rewrite <- (Forall2_length _ _ _ Hps). symmetry.
    exact (Forall2_length _ _ _ Hall).
  - intros k data Hk.
    destruct (Forall2_lookup_l _ _ _ _ _ Hall Hk) as (e & He & r & Hr & ->).
    destruct (Forall2_lookup_l _ _ _ _ _ Hps He) as (p & Hp & Hpk).
    exists r, p. auto.
Qed.

(** The four scenarios of the table are valid Model Configurations. *)
Lemma datas_valid : Forall valid_scenario datas.
Proof.
  unfold datas. repeat constructor; unfold valid_scenario; simpl;
    valid_scenario.
Qed.

(** * The initial condition *)


(** * The further theorems at concrete configurations *)




Lemma peak_marker_spec_witness :
  peak_marker [] [1; 3; 3] = Raises ValueError /\
  peak_marker [] [] = Raises ValueError /\
  exists idx dia_pico pico_I,
    peak_marker [0; 1; 2] [1; 3; 3] = Returns (dia_pico, pico_I) /\
    first_max [1; 3; 3] idx pico_I /\
    [0; 1; 2] !! idx = Some dia_pico.
Proof.
  refine (conj _ (conj _ _)).
  - apply (proj1 (peak_marker_spec [] [1; 3; 3])). simpl. lia.
  - apply (proj1 (proj2 (peak_marker_spec [] []))). reflexivity.
  - apply (proj2 (proj2 (peak_marker_spec [0; 1; 2] [1; 3; 3])));
      [discriminate | reflexivity].
Defined.

Lemma main_loop_valid_witness :
  Forall valid_scenario datas /\
  exists all_results,
    simulate datas [] = Returns all_results /\
    length all_results = length datas /\
    forall k data, datas !! k = Some data ->
      exists r,
        run_scenario data = Returns r /\
        all_results !! k = Some (result_entry data r).
Proof.
  split; [exact datas_valid |].
  apply (main_loop_valid datas). exact datas_valid.
Defined.

Lemma main_program_valid_witness :
  main_program [] = Raises IndexError /\
  (Forall valid_scenario datas /\ datas <> []) /\
  exists all_results N_total peaks,
    main_program datas = Returns (all_results, N_total, peaks) /\
    simulate datas [] = Returns all_results /\
    d_N <$> head datas = Some N_total /\
    length peaks = length datas /\
    forall k data, datas !! k = Some data ->
      exists r p,
        run_scenario data = Returns r /\
        peak_marker (res_t r) (res_I r) = Returns p /\
        peaks !! k = Some p.
Proof.
  split; [apply (proj1 (main_program_valid [])); reflexivity |].
  split; [split; [exact datas_valid | discriminate] |].
  apply (proj2 (main_program_valid datas)); [exact datas_valid | discriminate].
Defined.



(** * The integrator in binary64

    The same function with the arithmetic the source has: every real
    argument is a binary64 value, [+], [-], [*], [/] round to nearest even,
    the comparisons are those of IEEE 754 (false on [nan]), and the division
    of numpy goes on with [inf] or [nan] where it divides by zero.  A Python
    [int] argument below [2^53] in magnitude is the binary64 value equal to
    it.  [time_steps] stays an integer.  Memory is not modelled: the model
    describes the runs whose arrays the machine can allocate. *)

Module Binary64.

#[local] Set Warnings "-inexact-float".
#[local] Open Scope float_scope.

(** The conversion of an integer to binary64, to nearest even: the
    primitive conversion below [2^63], the specification's rounding above. *)
Definition Z2F (z : Z) : float :=
  if (Z.abs z <? 2 ^ 63)%Z then
    if (z <? 0)%Z then - of_uint63 (Uint63.of_Z (- z))
    else of_uint63 (Uint63.of_Z z)
  else SF2Prim (binary_normalize prec emax z 0 false).

(** Python raises [OverflowError] when it converts an [int] that rounds to
    infinity, from [2^1024 - 2^970] on. *)
Definition int_too_large (n : Z) : bool :=
  (2 ^ 1024 - 2 ^ 970 <=? Z.abs n)%Z.

(** [a / n] for a Python [float] and a Python [int]. *)
Definition py_div (a : float) (n : Z) : outcome float :=
  if (n =? 0)%Z then Raises ZeroDivisionError
  else if int_too_large n then Raises OverflowError
  else Returns (a / Z2F n).

(** [max(a, b)] and [min(a, b)]: the first argument unless the second is
    strictly larger, respectively smaller; a comparison with [nan] is
    false. *)
Definition py_max (a b : float) : float := if a <? b then b else a.

Definition py_min (a b : float) : float := if b <? a then b else a.

Definition getitem (a : list float) (i : nat) : outcome float :=
  match a !! i with
  | Some x => Returns x
  | None => Raises IndexError
  end.

Definition setitem (a : list float) (i : nat) (x : float)
    : outcome (list float) :=
  if (i <? length a)%nat then Returns (<[i:=x]> a) else Raises IndexError.

Definition zeros (n : Z) : outcome (list float) :=
  if (n <? 0)%Z then Raises ValueError else Returns (replicate (Z.to_nat n) 0).

(** Sample [k] of [np.linspace(start, stop, num)] before the last one is
    overwritten, as numpy computes it: [arange(0, num) * step + start] with
    [step = (stop - start) / (num - 1)]; when the step is zero,
    [arange(0, num) / (num - 1) * (stop - start) + start]; with fewer than two
    samples, [arange(0, num) * (stop - start) + start].  (numpy first
    multiplies both ends by [1.0], which changes no binary64 value.) *)
Definition linspace_sample (start stop : float) (num : Z) (k : nat) : float :=
  let div := (num - 1)%Z in
  let delta := stop - start in
  (if (0 <? div)%Z then
     let step := delta / Z2F div in
     if step =? 0 then Z2F (Z.of_nat k) / Z2F div * delta
     else Z2F (Z.of_nat k) * step
   else Z2F (Z.of_nat k) * delta)
  + start.

Definition linspace (start stop : float) (num : Z) : outcome (list float) :=
  if (num <? 0)%Z then Raises ValueError
  else
    let y := linspace_sample start stop num <$> seq 0 (Z.to_nat num) in
    Returns (if (1 <? num)%Z then <[(Z.to_nat num - 1)%nat := stop]> y else y).

Record arrays : Type := Arrays {
  arr_S : list float;
  arr_I : list float;
  arr_R : list float
}.

Record result : Type := Result {
  res_t : list float;
  res_S : list float;
  res_I : list float;
  res_R : list float
}.

Definition as_number (v : option float) : outcome float :=
  match v with
  | Some x => Returns x
  | None => Raises TypeError
  end.

Section Integrator.

Variables N I0 R0_param beta gamma total_time : float.
Variable time_steps : Z.
Variables intervencao_dia beta_pos_intervencao : option float.

(** Lines 102-104. *)
Definition current_beta (t_i : float) : option float :=
  match intervencao_dia with
  | Some dia => if dia <=? t_i then beta_pos_intervencao else Some beta
  | None => Some beta
  end.

(** Lines 100-130. *)
Definition loop_body (dt : float) (t : list float) (i : nat) (a : arrays)
    : outcome arrays :=
  t_i ← getitem t i;
  b ← as_number (current_beta t_i);
  s_i ← getitem (arr_S a) i;
  i_i ← getitem (arr_I a) i;
  let d_S := - b * s_i * i_i / N in
  let d_I := b * s_i * i_i / N - gamma * i_i in
  let d_R := gamma * i_i in
  r_i ← getitem (arr_R a) i;
  S1 ← setitem (arr_S a) (i + 1) (s_i + d_S * dt);
  I1 ← setitem (arr_I a) (i + 1) (i_i + d_I * dt);
  R1 ← setitem (arr_R a) (i + 1) (r_i + d_R * dt);
  s ← getitem S1 (i + 1);
  S2 ← setitem S1 (i + 1) (py_max 0 s);
  j ← getitem I1 (i + 1);
  I2 ← setitem I1 (i + 1) (py_max 0 j);
  r ← getitem R1 (i + 1);
  R2 ← setitem R1 (i + 1) (py_min N r);
  s ← getitem S2 (i + 1);
  j ← getitem I2 (i + 1);
  r ← getitem R2 (i + 1);
  let total := s + j + r in
  if negb (total =? N) && (0 <? total) then
    let fator := N / total in
    S3 ← setitem S2 (i + 1) (s * fator);
    I3 ← setitem I2 (i + 1) (j * fator);
    R3 ← setitem R2 (i + 1) (r * fator);
    mret (Arrays S3 I3 R3)
  else mret (Arrays S2 I2 R2).

(** Lines 86-133. *)
Definition run_sir_model : outcome result :=
  dt ← py_div total_time time_steps;
  t ← linspace 0 total_time (time_steps + 1);
  I ← zeros (time_steps + 1);
  R ← zeros (time_steps + 1);
  S ← zeros (time_steps + 1);
  I ← setitem I 0 I0;
  R ← setitem R 0 R0_param;
  S ← setitem S 0 (N - I0 - R0_param);
  a ← for_range 0 (Z.to_nat time_steps) (loop_body dt t) (Arrays S I R);
  mret (Result t (arr_S a) (arr_I a) (arr_R a)).

(** One step on a triple of values: forward update, clamps, rescaling. *)
Definition sir_next (b dt : float) (x : float * float * float)
    : float * float * float :=
  let '(s_i, i_i, r_i) := x in
  let s := py_max 0 (s_i + - b * s_i * i_i / N * dt) in
  let j := py_max 0 (i_i + (b * s_i * i_i / N - gamma * i_i) * dt) in
  let r := py_min N (r_i + gamma * i_i * dt) in
  let total := s + j + r in
  if negb (total =? N) && (0 <? total) then
    (s * (N / total), j * (N / total), r * (N / total))
  else (s, j, r).

(** The two halves of a step: the forward update with its clamps (lines
    108-122), and the guard of the rescaling (lines 125-126). *)
Definition clamped_step (b dt : float) (x : float * float * float)
    : float * float * float :=
  let '(s_i, i_i, r_i) := x in
  (py_max 0 (s_i + - b * s_i * i_i / N * dt),
   py_max 0 (i_i + (b * s_i * i_i / N - gamma * i_i) * dt),
   py_min N (r_i + gamma * i_i * dt)).

Definition rescales (c : float * float * float) : bool :=
  let '(s, j, r) := c in
  let total := s + j + r in
  negb (total =? N) && (0 <? total).

Definition cells (a : arrays) (k : nat) : option (float * float * float) :=
  s ← arr_S a !! k; i ← arr_I a !! k; r ← arr_R a !! k; Some (s, i, r).

(** The step size of line 87 and the time points of line 88. *)
Definition step_size : float := total_time / Z2F time_steps.

Definition time_point (k : nat) : float :=
  linspace_sample 0 total_time (time_steps + 1) k.

Definition rate (k : nat) : float :=
  default beta (current_beta (time_point k)).

Fixpoint trajectory (k : nat) : float * float * float :=
  match k with
  | O => (N - I0 - R0_param, I0, R0_param)
  | Datatypes.S k' => sir_next (rate k') step_size (trajectory k')
  end.

Definition initial_arrays : arrays :=
  let zeros := replicate (Datatypes.S (Z.to_nat time_steps)) 0 in
  Arrays (<[0%nat := N - I0 - R0_param]> zeros)
         (<[0%nat := I0]> zeros)
         (<[0%nat := R0_param]> zeros).

Definition full_length (a : arrays) : Prop :=
  length (arr_S a) = Datatypes.S (Z.to_nat time_steps) /\
  length (arr_I a) = Datatypes.S (Z.to_nat time_steps) /\
  length (arr_R a) = Datatypes.S (Z.to_nat time_steps).

(** The constraints of a Model Configuration on binary64 values.  Real
    parameters are finite; [initial_recovered <= population -
    initial_infected] is asked of the difference and of the initial number
    of susceptibles that line 97 computes. *)
Definition valid_config : Prop :=
  (0 <? N) = true /\ is_finite N = true /\
  (0 <=? I0) = true /\ (I0 <=? N) = true /\
  (0 <=? R0_param) = true /\ (R0_param <=? N - I0) = true /\
  (0 <=? N - I0 - R0_param) = true /\
  (0 <=? beta) = true /\ is_finite beta = true /\
  (0 <? gamma) = true /\ is_finite gamma = true /\
  (0 <? total_time) = true /\ is_finite total_time = true /\
  (0 < time_steps)%Z /\
  (is_Some intervencao_dia -> is_Some beta_pos_intervencao).

End Integrator.

Definition state_at (res : result) (k : nat)
    : option (float * float * float) :=
  cells (Arrays (res_S res) (res_I res) (res_R res)) k.

(** ** The loop body on arrays, and the loop *)

Lemma getitem_lookup (a : list float) (i : nat) (x : float) :
  a !! i = Some x -> getitem a i = Returns x.
Proof. intros H. unfold getitem. now rewrite H. Qed.

Lemma setitem_in_range (a : list float) (i : nat) (x : float) :
  (i < length a)%nat -> setitem a i x = Returns (<[i:=x]> a).
Proof.
  intros H. unfold setitem.
  destruct (Nat.ltb_spec i (length a)); [reflexivity | lia].
Qed.

Lemma getitem_updated (a : list float) (i : nat) (x : float) :
  (i < length a)%nat -> getitem (<[i:=x]> a) i = Returns x.
Proof. intros H. apply getitem_lookup. now apply list_lookup_insert_eq. Qed.

Lemma setitem_updated (a : list float) (i : nat) (x y : float) :
  (i < length a)%nat -> setitem (<[i:=x]> a) i y = Returns (<[i:=y]> a).
Proof.
  intros H. rewrite setitem_in_range by (rewrite length_insert; exact H).
  now rewrite list_insert_insert_eq.
Qed.

Lemma cells_lookup (a : arrays) (k : nat) (s i r : float) :
  cells a k = Some (s, i, r) <->
  arr_S a !! k = Some s /\ arr_I a !! k = Some i /\ arr_R a !! k = Some r.
Proof.
  unfold cells. split.
  - destruct (arr_S a !! k), (arr_I a !! k), (arr_R a !! k); simpl;
      try discriminate. intros [= -> -> ->]. auto.
  - intros (-> & -> & ->). reflexivity.
Qed.

Lemma loop_body_step (N gamma beta : float) (dia pos : option float)
    (dt : float) (t : list float) (i : nat) (a : arrays) (t_i b : float)
    (x : float * float * float) :
  t !! i = Some t_i ->
  current_beta beta dia pos t_i = Some b ->
  cells a i = Some x ->
  (i + 1 < length (arr_S a))%nat ->
  (i + 1 < length (arr_I a))%nat ->
  (i + 1 < length (arr_R a))%nat ->
  loop_body N beta gamma dia pos dt t i a
  = Returns (Arrays
      (<[(i + 1)%nat := fst (fst (sir_next N gamma b dt x))]> (arr_S a))
      (<[(i + 1)%nat := snd (fst (sir_next N gamma b dt x))]> (arr_I a))
      (<[(i + 1)%nat := snd (sir_next N gamma b dt x)]> (arr_R a))).
Proof.
  intros Ht Hb Hx HS HI HR. destruct x as [[s j] r].
  apply cells_lookup in Hx. destruct Hx as (Hs & Hj & Hr).
  unfold loop_body.
  rewrite (getitem_lookup _ _ _ Ht), bind_Returns, Hb. simpl as_number.
  rewrite bind_Returns.
  rewrite (getitem_lookup _ _ _ Hs), bind_Returns.
  rewrite (getitem_lookup _ _ _ Hj), bind_Returns.
  rewrite (getitem_lookup _ _ _ Hr), bind_Returns.
  repeat first
    [ rewrite bind_Returns
    | rewrite getitem_updated by assumption
    | rewrite setitem_updated by assumption
    | rewrite setitem_in_range by assumption ].
  unfold sir_next. cbv zeta.
  match goal with |- context [if ?c then _ else _] => destruct c end;
    reflexivity.
Qed.


(** The step counts of the runs that fit in memory: positive, and small
    enough for every index to be a binary64 value. *)
Definition fits (time_steps : Z) : Prop := (0 < time_steps < 2 ^ 53)%Z.

Lemma fits_not_too_large (n : Z) :
  (Z.abs n < 2 ^ 53)%Z -> int_too_large n = false.
Proof.
  intros H. unfold int_too_large.
  assert (Hbig : (2 ^ 53 <= 2 ^ 1024 - 2 ^ 970)%Z) by (vm_compute; discriminate).
  destruct (Z.leb_spec (2 ^ 1024 - 2 ^ 970) (Z.abs n)); [lia | reflexivity].
Qed.

Section Run.

Variables N I0 R0_param beta gamma total_time : float.
Variable time_steps : Z.
Variables intervencao_dia beta_pos_intervencao : option float.

#[local] Abbreviation n := (Z.to_nat time_steps).
#[local] Abbreviation select :=
  (current_beta beta intervencao_dia beta_pos_intervencao).
#[local] Abbreviation point := (time_point total_time time_steps).
#[local] Abbreviation dt := (step_size total_time time_steps).
#[local] Abbreviation body tl :=
  (loop_body N beta gamma intervencao_dia beta_pos_intervencao dt tl).
#[local] Abbreviation traj :=
  (trajectory N I0 R0_param beta gamma total_time time_steps
     intervencao_dia beta_pos_intervencao).
#[local] Abbreviation init := (initial_arrays N I0 R0_param time_steps).
#[local] Abbreviation full a := (full_length time_steps a).
#[local] Abbreviation run :=
  (run_sir_model N I0 R0_param beta gamma total_time time_steps
     intervencao_dia beta_pos_intervencao).

Hypothesis steps_fit : fits time_steps.

Lemma linspace_points :
  exists tl,
    linspace 0 total_time (time_steps + 1) = Returns tl /\
    length tl = Datatypes.S n /\
    (forall k, (k < n)%nat -> tl !! k = Some (point k)) /\
    tl !! n = Some total_time.
Proof.
  destruct steps_fit as (Hpos & _). unfold linspace.
  destruct (Z.ltb_spec (time_steps + 1) 0) as [? | _]; [lia |].
  destruct (Z.ltb_spec 1 (time_steps + 1)) as [_ | ?]; [| lia].
  replace (Z.to_nat (time_steps + 1)) with (Datatypes.S n) by lia.
  replace (Datatypes.S n - 1)%nat with n by lia.
  eexists. split; [reflexivity |].
  assert (Hlen : length (linspace_sample 0 total_time (time_steps + 1)
                           <$> seq 0 (Datatypes.S n)) = Datatypes.S n).
  { now rewrite length_fmap, length_seq. }
  split; [| split].
  - now rewrite length_insert.
  - intros k Hk. rewrite list_lookup_insert_ne by lia.
    rewrite list_lookup_fmap, lookup_seq_lt by lia. reflexivity.
  - apply list_lookup_insert_eq. lia.
Qed.

Lemma loop_invariant (tl : list float) (k : nat) :
  (forall j, (j < n)%nat -> tl !! j = Some (point j)) ->
  (k <= n)%nat ->
  (forall j, (j < k)%nat -> is_Some (select (point j))) ->
  exists a,
    for_range 0 k (body tl) init = Returns a /\
    full a /\
    forall j, (j <= k)%nat -> cells a j = Some (traj j).
Proof.
  intros Htl. induction k as [| k IH]; intros Hk Hok.
  - exists init. split; [reflexivity |]. split.
    + unfold full_length, initial_arrays. simpl.
      now rewrite !length_replicate.
    + intros j Hj. assert (j = 0%nat) as -> by lia. reflexivity.
  - destruct IH as (a & Hrun & (HS & HI & HR) & Hcells);
      [lia | intros j Hj; apply Hok; lia |].
    destruct (Hok k) as [b Hb]; [lia |].
    rewrite for_range_snoc, Hrun, bind_Returns. simpl "+"%nat.
    rewrite (loop_body_step _ _ _ _ _ _ _ _ _ (point k) b (traj k));
      [| apply Htl; lia | exact Hb | apply Hcells; lia | lia | lia | lia].
    eexists. split; [reflexivity |]. split.
    + unfold full_length. simpl. now rewrite !length_insert.
    + intros j Hj. destruct (Nat.eq_dec j (Datatypes.S k)) as [-> | Hne].
      * replace (k + 1)%nat with (Datatypes.S k) by lia.
        unfold cells. simpl arr_S. simpl arr_I. simpl arr_R.
        rewrite !list_lookup_insert_eq by lia.
        change (traj (Datatypes.S k))
          with (sir_next N gamma (rate beta total_time time_steps
                  intervencao_dia beta_pos_intervencao k) dt (traj k)).
        unfold rate. rewrite Hb. simpl default.
        now destruct (sir_next N gamma b dt (traj k)) as [[? ?] ?].
      * specialize (Hcells j ltac:(lia)).
        unfold cells in *. simpl arr_S. simpl arr_I. simpl arr_R.
        now rewrite !list_lookup_insert_ne by lia.
Qed.

Lemma run_as_loop :
  exists tl,
    length tl = Datatypes.S n /\
    (forall k, (k < n)%nat -> tl !! k = Some (point k)) /\
    tl !! n = Some total_time /\
    run = (for_range 0 n (body tl) init
           ≫= fun a => Returns (Result tl (arr_S a) (arr_I a) (arr_R a))).
Proof.
  destruct linspace_points as (tl & Hlin & Hlen & Hpts & Hlast).
  destruct steps_fit as (Hpos & Hlt).
  exists tl. repeat split; try assumption.
  unfold run_sir_model, py_div.
  destruct (Z.eqb_spec time_steps 0) as [? | _]; [lia |].
  rewrite fits_not_too_large by lia.
  rewrite bind_Returns, Hlin, bind_Returns. unfold zeros.
  destruct (Z.ltb_spec (time_steps + 1) 0) as [? | _]; [lia |].
  replace (Z.to_nat (time_steps + 1)) with (Datatypes.S n) by lia.
  rewrite !bind_Returns.
  rewrite !setitem_in_range by (rewrite length_replicate; lia).
  rewrite !bind_Returns. reflexivity.
Qed.

(** A run whose steps all find a rate returns, and its arrays hold the
    trajectory. *)
Lemma run_result :
  (forall k, (k < n)%nat -> is_Some (select (point k))) ->
  exists res,
    run = Returns res /\
    (length (res_t res) = Datatypes.S n /\
     length (res_S res) = Datatypes.S n /\
     length (res_I res) = Datatypes.S n /\
     length (res_R res) = Datatypes.S n) /\
    (forall k, (k < n)%nat -> res_t res !! k = Some (point k)) /\
    res_t res !! n = Some total_time /\
    (forall k, (k <= n)%nat -> state_at res k = Some (traj k)).
Proof.
  intros Hok.
  destruct run_as_loop as (tl & Hlen & Hpts & Hlast & ->).
  destruct (loop_invariant tl n Hpts (Nat.le_refl _) Hok)
    as (a & -> & (HS & HI & HR) & Hcells).
  rewrite bind_Returns. eexists. split; [reflexivity |]. simpl.
  repeat split; assumption.
Qed.


End Run.

(** ** Comparisons of binary64 values *)

Lemma SFcompare_antisym (x y : spec_float) :
  SFcompare y x = option_map CompOpp (SFcompare x y).
Proof.
  destruct x as [sx | sx | | sx mx ex], y as [sy | sy | | sy my ey];
    try destruct sx; try destruct sy; try reflexivity; simpl;
    rewrite (Z.compare_antisym ey ex); destruct (ey ?= ex)%Z; simpl;
    try reflexivity;
    rewrite (Pos.compare_cont_antisym mx my Eq); simpl;
    try reflexivity; now rewrite CompOpp_involutive.
Qed.

(** [x < y] excludes [y <= x]. *)
Lemma ltb_not_leb (x y : float) : (x <? y) = true -> (y <=? x) = false.
Proof.
  rewrite ltb_spec, leb_spec. unfold SFltb, SFleb.
  rewrite (SFcompare_antisym (Prim2SF x) (Prim2SF y)).
  destruct (SFcompare (Prim2SF x) (Prim2SF y)) as [[| |] |];
    simpl; congruence.
Qed.

(** ** The intervention, the Euler step and the outcome of a run *)

(** C2. Intervention switch, on the time axis as [np.linspace] computes it:
    with [intervencao_dia = T] and a rate [beta_pos_intervencao = b']
    configured, the run returns, and the step that starts at the stored
    time [t[k]] is computed with [beta] when [t[k] < T] and with [b'] when
    [t[k] >= T]; when the comparison [t[k] >= T] is false ([T] larger, or
    [nan]) the step keeps [beta], so the switch never takes effect
    before [T]. *)
Theorem intervention_switch
    (N I0 R0_param beta gamma total_time : float) (time_steps : Z)
    (T b' : float) :
  fits time_steps ->
  exists res,
    run_sir_model N I0 R0_param beta gamma total_time time_steps
      (Some T) (Some b') = Returns res /\
    forall k, (k < Z.to_nat time_steps)%nat ->
      exists t_k x,
        res_t res !! k = Some t_k /\
        state_at res k = Some x /\
        ((t_k <? T) = true ->
         current_beta beta (Some T) (Some b') t_k = Some beta /\
         state_at res (k + 1)
         = Some (sir_next N gamma beta (total_time / Z2F time_steps) x)) /\
        ((T <=? t_k) = true ->
         current_beta beta (Some T) (Some b') t_k = Some b' /\
         state_at res (k + 1)
         = Some (sir_next N gamma b' (total_time / Z2F time_steps) x)) /\
        ((T <=? t_k) = false ->
         current_beta beta (Some T) (Some b') t_k = Some beta /\
         state_at res (k + 1)
         = Some (sir_next N gamma beta (total_time / Z2F time_steps) x)).
Proof.
  intros Hfit.
  destruct (run_result N I0 R0_param beta gamma total_time time_steps
              (Some T) (Some b') Hfit)
    as (res & Hrun & _ & Hpts & _ & Hst).
  { intros k _. unfold current_beta.
    destruct (T <=? time_point total_time time_steps k); eauto. }
  exists res. split; [exact Hrun |]. intros k Hk.
  exists (time_point total_time time_steps k),
         (trajectory N I0 R0_param beta gamma total_time time_steps
            (Some T) (Some b') k).
  split; [now apply Hpts |]. split; [apply Hst; lia |].
  assert (Hnext : state_at res (k + 1)
            = Some (sir_next N gamma
                      (rate beta total_time time_steps (Some T) (Some b') k)
                      (step_size total_time time_steps)
                      (trajectory N I0 R0_param beta gamma total_time
                         time_steps (Some T) (Some b') k))).
  { rewrite Hst by lia. now replace (k + 1)%nat with (Datatypes.S k) by lia. }
  unfold rate, current_beta, step_size in *.
  split; [| split].
  - intros Hlt. apply ltb_not_leb in Hlt. rewrite Hlt in *. auto.
  - intros Hle. rewrite Hle in *. auto.
  - intros Hle. rewrite Hle in *. auto.
Qed.

(** C3. Explicit Euler step, in the arithmetic of the code: in a run that
    fits, for every step [k] from [0] to [time_steps - 1], with [b] the rate
    selected at [t[k]] and [dt = total_time / time_steps] computed once,
    the forward update of the state [(s, i, r)] at [k] is
    [s + dS*dt], [i + dI*dt], [r + dR*dt] with [dS = -b*s*i/N],
    [dI = b*s*i/N - gamma*i], [dR = gamma*i]; only then each value is
    clamped by itself, [S] and [I] to [0] when they are not above [0], [R] to
    [N] when it is not below [N]; and the state stored at [k + 1] is the
    clamped triple, rescaled by [N / total] when its sum [total] differs
    from [N] and is positive. *)
Theorem explicit_euler_step
    (N I0 R0_param beta gamma total_time : float) (time_steps : Z)
    (intervencao_dia beta_pos_intervencao : option float) :
  fits time_steps ->
  (is_Some intervencao_dia -> is_Some beta_pos_intervencao) ->
  exists res,
    run_sir_model N I0 R0_param beta gamma total_time time_steps
      intervencao_dia beta_pos_intervencao
    = Returns res /\
    forall k, (k < Z.to_nat time_steps)%nat ->
      exists t_k b s i r,
        res_t res !! k = Some t_k /\
        current_beta beta intervencao_dia beta_pos_intervencao t_k = Some b /\
        state_at res k = Some (s, i, r) /\
        let dt := total_time / Z2F time_steps in
        let dS := - b * s * i / N in
        let dI := b * s * i / N - gamma * i in
        let dR := gamma * i in
        let s1 := s + dS * dt in
        let i1 := i + dI * dt in
        let r1 := r + dR * dt in
        let s2 := if 0 <? s1 then s1 else 0 in
        let i2 := if 0 <? i1 then i1 else 0 in
        let r2 := if r1 <? N then r1 else N in
        let total := s2 + i2 + r2 in
        state_at res (k + 1)
        = Some (if negb (total =? N) && (0 <? total)
                then (s2 * (N / total), i2 * (N / total), r2 * (N / total))
                else (s2, i2, r2)).
Proof.
  intros Hfit Hrate.
  assert (Hok : forall k, (k < Z.to_nat time_steps)%nat ->
            is_Some (current_beta beta intervencao_dia beta_pos_intervencao
                       (time_point total_time time_steps k))).
  { intros k _. unfold current_beta.
    destruct intervencao_dia as [dia |]; [| eauto].
    destruct (dia <=? time_point total_time time_steps k); eauto. }
  destruct (run_result N I0 R0_param beta gamma total_time time_steps
              intervencao_dia beta_pos_intervencao Hfit Hok)
    as (res & Hrun & _ & Hpts & _ & Hst).
  exists res. split; [exact Hrun |]. intros k Hk.
  destruct (Hok k Hk) as [b Hb].
  pose proof (Hst k ltac:(lia)) as Hk0.
  pose proof (Hst (Datatypes.S k) ltac:(lia)) as Hk1.
  simpl trajectory in Hk1. unfold rate in Hk1. rewrite Hb in Hk1.
  simpl default in Hk1.
  destruct (trajectory N I0 R0_param beta gamma total_time time_steps
              intervencao_dia beta_pos_intervencao k) as [[s i] r].
  exists (time_point total_time time_steps k), b, s, i, r.
  split; [now apply Hpts |]. split; [exact Hb |]. split; [exact Hk0 |].
  replace (k + 1)%nat with (Datatypes.S k) by lia. exact Hk1.
Qed.


(** ** Signs of binary64 results *)

(** Not below zero: zero of either sign, positive, or [nan]. *)
Definition sf_nonneg (x : spec_float) : bool :=
  match x with
  | S754_finite s _ _ | S754_infinity s => negb s
  | _ => true
  end.

(** No sign bit: as above, without the negative zero. *)
Definition sf_unsigned (x : spec_float) : bool :=
  match x with
  | S754_nan => true
  | S754_zero s | S754_infinity s | S754_finite s _ _ => negb s
  end.

Lemma Prim2SF_zero : Prim2SF 0 = S754_zero false.
Proof. reflexivity. Qed.

Lemma nonneg_spec (x : float) :
  (x <? 0) = false <-> sf_nonneg (Prim2SF x) = true.
Proof.
  rewrite ltb_spec, Prim2SF_zero. unfold SFltb.
  destruct (Prim2SF x) as [s | s | | s m e]; try destruct s; simpl;
    split; congruence.
Qed.

Lemma positive_unsigned (x : float) :
  (0 <? x) = true -> sf_unsigned (Prim2SF x) = true.
Proof.
  rewrite ltb_spec, Prim2SF_zero. unfold SFltb.
  destruct (Prim2SF x) as [s | s | | s m e]; try destruct s; simpl;
    congruence.
Qed.

Lemma unsigned_nonneg (x : spec_float) :
  sf_unsigned x = true -> sf_nonneg x = true.
Proof. destruct x as [s | s | | s m e]; simpl; auto. Qed.

Lemma leb_zero_nonneg (x : float) : (0 <=? x) = true -> (x <? 0) = false.
Proof.
  intros H. destruct (x <? 0) eqn:E; [| reflexivity].
  apply ltb_not_leb in E. congruence.
Qed.

Lemma binary_round_aux_unsigned (m e : Z) (l : location) :
  sf_unsigned (binary_round_aux prec emax false m e l) = true.
Proof.
  unfold binary_round_aux.
  destruct (shr_fexp prec emax m e l) as [mrs' e'].
  destruct (shr_fexp prec emax _ e' loc_Exact) as [mrs'' e''].
  destruct (shr_m mrs''); [reflexivity | | reflexivity].
  now destruct (e'' <=? emax - prec)%Z.
Qed.

Lemma binary_normalize_unsigned (m e : Z) :
  (0 <= m)%Z -> sf_unsigned (binary_normalize prec emax m e false) = true.
Proof.
  intros Hm. destruct m as [| p | p]; [reflexivity | | lia].
  unfold binary_normalize, binary_round.
  destruct (shl_align p e _) as [mz ez]. apply binary_round_aux_unsigned.
Qed.

Lemma SFmul_nonneg (x y : spec_float) :
  sf_nonneg x = true -> sf_nonneg y = true ->
  sf_nonneg (SFmul prec emax x y) = true.
Proof.
  destruct x as [sx | sx | | sx mx ex], y as [sy | sy | | sy my ey];
    simpl; intros Hx Hy; try reflexivity;
    try (apply negb_true_iff in Hx; subst sx);
    try (apply negb_true_iff in Hy; subst sy); try reflexivity.
  apply unsigned_nonneg, binary_round_aux_unsigned.
Qed.

Lemma SFdiv_nonneg (x y : spec_float) :
  sf_nonneg x = true -> sf_unsigned y = true ->
  sf_nonneg (SFdiv prec emax x y) = true.
Proof.
  destruct x as [sx | sx | | sx mx ex], y as [sy | sy | | sy my ey];
    simpl; intros Hx Hy; try reflexivity;
    try (apply negb_true_iff in Hx; subst sx);
    try (apply negb_true_iff in Hy; subst sy); try reflexivity.
  destruct (SFdiv_core_binary prec emax (Z.pos mx) ex (Z.pos my) ey)
    as [[mz ez] lz].
  apply unsigned_nonneg, binary_round_aux_unsigned.
Qed.

Lemma SFadd_nonneg (x y : spec_float) :
  sf_nonneg x = true -> sf_nonneg y = true ->
  sf_nonneg (SFadd prec emax x y) = true.
Proof.
  destruct x as [sx | sx | | sx mx ex], y as [sy | sy | | sy my ey];
    simpl; intros Hx Hy; try reflexivity;
    try (apply negb_true_iff in Hx; subst sx);
    try (apply negb_true_iff in Hy; subst sy); try reflexivity;
    try (destruct sx; reflexivity); try (destruct sy; reflexivity);
    try (destruct sx, sy; reflexivity).
  apply unsigned_nonneg, binary_normalize_unsigned. simpl. lia.
Qed.

(** A value is not negative: [x < 0] is false, which [nan] satisfies. *)
Definition not_negative (x : float) : Prop := (x <? 0) = false.

Lemma mul_not_negative (x y : float) :
  not_negative x -> not_negative y -> not_negative (x * y).
Proof.
  unfold not_negative. rewrite !nonneg_spec, mul_spec. apply SFmul_nonneg.
Qed.

Lemma add_not_negative (x y : float) :
  not_negative x -> not_negative y -> not_negative (x + y).
Proof.
  unfold not_negative. rewrite !nonneg_spec, add_spec. apply SFadd_nonneg.
Qed.

Lemma div_not_negative (x y : float) :
  not_negative x -> sf_unsigned (Prim2SF y) = true -> not_negative (x / y).
Proof.
  unfold not_negative. rewrite !nonneg_spec, div_spec. apply SFdiv_nonneg.
Qed.

Lemma positive_not_negative (x : float) : (0 <? x) = true -> not_negative x.
Proof.
  intros H. apply nonneg_spec, unsigned_nonneg, positive_unsigned, H.
Qed.

Lemma zero_not_negative : not_negative 0.
Proof. reflexivity. Qed.

Lemma py_max_not_negative (x : float) : not_negative (py_max 0 x).
Proof.
  unfold py_max. destruct (0 <? x) eqn:E;
    [now apply positive_not_negative | exact zero_not_negative].
Qed.

Lemma py_min_not_negative (N x : float) :
  not_negative N -> not_negative x -> not_negative (py_min N x).
Proof. intros HN Hx. unfold py_min. now destruct (x <? N). Qed.

Lemma Z2F_unsigned (z : Z) :
  (0 <= z < 2 ^ 53)%Z -> sf_unsigned (Prim2SF (Z2F z)) = true.
Proof.
  intros Hz. unfold Z2F.
  destruct (Z.ltb_spec (Z.abs z) (2 ^ 63)) as [_ | ?]; [| lia].
  destruct (Z.ltb_spec z 0) as [? | _]; [lia |].
  rewrite of_uint63_spec. apply binary_normalize_unsigned.
  apply Uint63.to_Z_bounded.
Qed.

Lemma SFmul_unsigned (x y : spec_float) :
  sf_unsigned x = true -> sf_unsigned y = true ->
  sf_unsigned (SFmul prec emax x y) = true.
Proof.
  destruct x as [sx | sx | | sx mx ex], y as [sy | sy | | sy my ey];
    simpl; intros Hx Hy; try reflexivity;
    try (apply negb_true_iff in Hx; subst sx);
    try (apply negb_true_iff in Hy; subst sy); try reflexivity.
  apply binary_round_aux_unsigned.
Qed.

Lemma SFdiv_unsigned (x y : spec_float) :
  sf_unsigned x = true -> sf_unsigned y = true ->
  sf_unsigned (SFdiv prec emax x y) = true.
Proof.
  destruct x as [sx | sx | | sx mx ex], y as [sy | sy | | sy my ey];
    simpl; intros Hx Hy; try reflexivity;
    try (apply negb_true_iff in Hx; subst sx);
    try (apply negb_true_iff in Hy; subst sy); try reflexivity.
  destruct (SFdiv_core_binary prec emax (Z.pos mx) ex (Z.pos my) ey)
    as [[mz ez] lz].
  apply binary_round_aux_unsigned.
Qed.

Lemma mul_unsigned (x y : float) :
  sf_unsigned (Prim2SF x) = true -> sf_unsigned (Prim2SF y) = true ->
  sf_unsigned (Prim2SF (x * y)) = true.
Proof. rewrite mul_spec. apply SFmul_unsigned. Qed.

Lemma div_unsigned (x y : float) :
  sf_unsigned (Prim2SF x) = true -> sf_unsigned (Prim2SF y) = true ->
  sf_unsigned (Prim2SF (x / y)) = true.
Proof. rewrite div_spec. apply SFdiv_unsigned. Qed.

(** Subtracting, and adding, the zero that [np.linspace] starts from. *)
Lemma sub_zero_r (x : float) : x - 0 = x.
Proof.
  apply Prim2SF_inj. rewrite sub_spec, Prim2SF_zero.
  destruct (Prim2SF x) as [[|] | [|] | | s m e]; reflexivity.
Qed.

Lemma add_zero_r (x : float) : sf_unsigned (Prim2SF x) = true -> x + 0 = x.
Proof.
  intros H. apply Prim2SF_inj. rewrite add_spec, Prim2SF_zero.
  destruct (Prim2SF x) as [[|] | [|] | | s m e]; try reflexivity.
  discriminate H.
Qed.

Lemma SFcompare_refl (x : spec_float) :
  x <> S754_nan -> SFcompare x x = Some Eq.
Proof.
  destruct x as [[|] | [|] | | [|] m e]; intros H; try reflexivity;
    try congruence; simpl; rewrite Z.compare_refl, Pos.compare_cont_refl;
    reflexivity.
Qed.

Lemma ltb_leb (x y : float) : (x <? y) = true -> (x <=? y) = true.
Proof.
  rewrite ltb_spec, leb_spec. unfold SFltb, SFleb.
  now destruct (SFcompare (Prim2SF x) (Prim2SF y)) as [[| |] |].
Qed.


(** ** Rounding to nearest

    What the specification of binary64 arithmetic gives about the size of a
    rounded result: a positive integer below [2^53] converts to itself; a sum
    of two numbers that are not negative is never rounded below either of
    them; a difference with, and a quotient by, such numbers is never rounded
    above the first operand. *)

#[local] Open Scope Z_scope.

(** The number of binary digits of a positive integer. *)
Lemma digits2_pos_iter (m d : positive) :
  digits2_pos (Pos.iter xO m d) = (digits2_pos m + d)%positive.
Proof.
  induction d as [| d IH] using Pos.peano_ind.
  - simpl. now rewrite Pos.add_1_r.
  - rewrite Pos.iter_succ. simpl. rewrite IH. now rewrite Pos.add_succ_r.
Qed.

Lemma digits2_pos_lower (p : positive) :
  (2 ^ (Z.pos (digits2_pos p) - 1) <= Z.pos p)%Z.
Proof.
  induction p as [p IH | p IH |]; simpl digits2_pos.
  - rewrite Pos2Z.inj_succ.
    replace (Z.succ (Z.pos (digits2_pos p)) - 1)%Z
      with (Z.succ (Z.pos (digits2_pos p) - 1))%Z by lia.
    rewrite Z.pow_succ_r by lia. lia.
  - rewrite Pos2Z.inj_succ.
    replace (Z.succ (Z.pos (digits2_pos p)) - 1)%Z
      with (Z.succ (Z.pos (digits2_pos p) - 1))%Z by lia.
    rewrite Z.pow_succ_r by lia. lia.
  - simpl. lia.
Qed.

(** A mantissa of 53 digits at an exponent in range is left as it is. *)
Lemma binary_round_aux_canonical (sx : bool) (m : positive) (e : Z) :
  Z.pos (digits2_pos m) = prec -> (-1074 <= e <= 971)%Z ->
  binary_round_aux prec emax sx (Z.pos m) e loc_Exact = S754_finite sx m e.
Proof.
  intros Hd He.
  assert (Hf : (fexp prec emax (Z.pos (digits2_pos m) + e) - e = 0)%Z).
  { rewrite Hd. unfold fexp, emin, prec, emax. lia. }
  unfold binary_round_aux, shr_fexp. simpl Zdigits2. rewrite Hf. simpl.
  rewrite Hf. simpl.
  destruct (Z.leb_spec e (emax - prec)); [reflexivity |].
  unfold emax, prec in *. lia.
Qed.

Lemma digits2_pos_upper (p : positive) :
  Z.pos p < 2 ^ Z.pos (digits2_pos p).
Proof.
  induction p as [p IH | p IH |]; simpl digits2_pos.
  - rewrite Pos2Z.inj_succ, Z.pow_succ_r by lia. lia.
  - rewrite Pos2Z.inj_succ, Z.pow_succ_r by lia. lia.
  - simpl. lia.
Qed.

(** The right shift of the rounding procedure divides by a power of two. *)
Lemma iter_pos_nat {A : Type} (f : A -> A) (n : positive) (x : A) :
  SpecFloat.iter_pos f n x = Nat.iter (Pos.to_nat n) f x.
Proof.
  revert x. induction n as [n IH | n IH |]; intros x; simpl SpecFloat.iter_pos.
  - rewrite !IH, Pos2Nat.inj_xI.
    replace (S (2 * Pos.to_nat n))%nat with (Pos.to_nat n + (Pos.to_nat n + 1))%nat by lia.
    rewrite !Nat.iter_add. simpl. reflexivity.
  - rewrite !IH, Pos2Nat.inj_xO.
    replace (2 * Pos.to_nat n)%nat with (Pos.to_nat n + Pos.to_nat n)%nat by lia.
    now rewrite Nat.iter_add.
  - reflexivity.
Qed.

Lemma shr_1_m (mrs : shr_record) :
  0 <= shr_m mrs -> shr_m (shr_1 mrs) = shr_m mrs / 2.
Proof.
  destruct mrs as [m r s]. simpl. intros Hm.
  destruct m as [| [p | p |] | p]; simpl; try lia; try reflexivity.
  - apply Z.div_unique with 1; lia.
  - apply Z.div_unique with 0; lia.
Qed.

Lemma iter_shr_1_m (k : nat) (mrs : shr_record) :
  0 <= shr_m mrs ->
  shr_m (Nat.iter k shr_1 mrs) = shr_m mrs / 2 ^ Z.of_nat k.
Proof.
  intros Hm. induction k as [| k IH].
  - simpl. now rewrite Z.div_1_r.
  - rewrite Nat2Z.inj_succ, Z.pow_succ_r by lia. simpl Nat.iter.
    rewrite shr_1_m.
    + rewrite IH. rewrite Z.div_div by lia. f_equal. lia.
    + rewrite IH. apply Z.div_pos; lia.
Qed.

Lemma shr_m_value (mrs : shr_record) (e n : Z) :
  0 <= shr_m mrs ->
  shr_m (fst (shr mrs e n)) = shr_m mrs / 2 ^ Z.max n 0 /\
  snd (shr mrs e n) = e + Z.max n 0.
Proof.
  intros Hm. unfold shr. destruct n as [| p | p]; simpl fst; simpl snd.
  - simpl. rewrite Z.div_1_r. lia.
  - rewrite iter_pos_nat, iter_shr_1_m by exact Hm.
    rewrite positive_nat_Z. replace (Z.max (Z.pos p) 0) with (Z.pos p) by lia.
    split; reflexivity.
  - replace (Z.max (Z.neg p) 0) with 0 by lia. simpl. rewrite Z.div_1_r. lia.
Qed.

Lemma round_nearest_even_ge (m : Z) (l : location) :
  m <= round_nearest_even m l.
Proof.
  destruct l as [| [| |]]; simpl; try lia. destruct (Z.even m); lia.
Qed.

Lemma Zdigits2_lower (z : Z) : 0 < z -> 2 ^ (Zdigits2 z - 1) <= z.
Proof.
  destruct z as [| p | p]; try lia. intros _. apply digits2_pos_lower.
Qed.

Lemma fexp_ge_emin (x : Z) : -1074 <= fexp prec emax x.
Proof. unfold fexp, emin, prec, emax. lia. Qed.

Lemma fexp_shift (d e : Z) :
  1 <= d -> -1074 <= e -> Z.max (fexp prec emax (d + e) - e) 0 <= d - 1.
Proof. unfold fexp, emin, prec, emax. lia. Qed.

(** Rounding [P * 2^e] gives at least any binary64 number [m0 * 2^e0] that
    is at most [P * 2^e]. *)
Lemma binary_round_ge (P m0 : positive) (e e0 : Z) :
  canonical_mantissa prec emax m0 e0 = true ->
  -1074 <= e <= e0 ->
  Z.pos m0 * 2 ^ (e0 - e) <= Z.pos P ->
  SFleb (S754_finite false m0 e0) (binary_round prec emax false P e) = true.
Proof.
  intros Hcan He Hle.
  unfold canonical_mantissa in Hcan. apply Z.eqb_eq in Hcan.
  set (d := Z.pos (digits2_pos P)).
  set (d0 := Z.pos (digits2_pos m0)) in *.
  assert (Hd : d0 + e0 <= d + e).
  { pose proof (digits2_pos_lower m0) as H0. fold d0 in H0.
    pose proof (digits2_pos_upper P) as HP. fold d in HP.
    assert (H1 : 2 ^ (d0 - 1) * 2 ^ (e0 - e) <= Z.pos m0 * 2 ^ (e0 - e)).
    { apply Z.mul_le_mono_nonneg_r; [apply Z.pow_nonneg; lia | exact H0]. }
    rewrite <- Z.pow_add_r in H1 by (unfold d0; lia).
    assert (H2 : 2 ^ (d0 - 1 + (e0 - e)) < 2 ^ d) by lia.
    apply Z.pow_lt_mono_r_iff in H2; unfold d; lia. }
  set (fe := fexp prec emax (d + e)).
  assert (Hfe : e0 <= fe).
  { rewrite <- Hcan. unfold fe, fexp. lia. }
  assert (Hfe' : -1074 <= fe) by apply fexp_ge_emin.
  unfold binary_round. fold d. fold fe.
  unfold shl_align.
  destruct (fe - e) as [| n | n] eqn:En; try lia.
  all: unfold binary_round_aux, shr_fexp; simpl Zdigits2; fold d; fold fe.
  all: rewrite En.
  all: match goal with
       | |- context [shr ?mrs ?ee ?nn] =>
           pose proof (shr_m_value mrs ee nn) as Hs1;
           destruct (shr mrs ee nn) as [mrs1 e1]
       end.
  all: simpl in Hs1; destruct Hs1 as [Hm1 He1]; [lia |].
  all: pose proof (round_nearest_even_ge (shr_m mrs1) (loc_of_shr_record mrs1))
         as Hr.
  all: set (m1r := round_nearest_even (shr_m mrs1) (loc_of_shr_record mrs1)) in *.
  all: match goal with
       | |- context [shr ?mrs ?ee ?nn] =>
           pose proof (shr_m_value mrs ee nn) as Hs2;
           set (n2 := nn) in *;
           destruct (shr mrs ee n2) as [mrs2 e2]
       end.
  all: simpl in Hs2.
  (* the quotient after the first shift *)
  all: assert (Hq : Z.pos m0 <= shr_m mrs1 \/ e0 < e1).
  1: { subst e1. destruct (Z.eq_dec e0 fe) as [Heq | Hne]; [left | right; lia].
       rewrite Hm1. simpl. rewrite Z.div_1_r.
       replace (e0 - e) with 0 in Hle by lia. simpl in Hle. lia. }
  2: { subst e1. destruct (Z.eq_dec e0 fe) as [Heq | Hne]; [left | right; lia].
       rewrite Hm1. replace (Z.max (Z.pos n) 0) with (e0 - e) by lia.
       apply Z.div_le_lower_bound; [apply Z.pow_pos_nonneg; lia | lia]. }
  all: assert (Hpos1 : 1 <= shr_m mrs1).
  1: { rewrite Hm1. simpl. rewrite Z.div_1_r. lia. }
  2: { rewrite Hm1. apply Z.div_le_lower_bound;
         [apply Z.pow_pos_nonneg; lia |].
       pose proof (digits2_pos_lower P) as HP. fold d in HP.
       pose proof (fexp_shift d e ltac:(unfold d; lia) ltac:(lia)) as Hsh.
       fold fe in Hsh. rewrite En in Hsh.
       assert (2 ^ Z.max (Z.pos n) 0 <= 2 ^ (d - 1))
         by (apply Z.pow_le_mono_r; lia).
       lia. }
  all: destruct Hs2 as [Hm2 He2]; [lia |].
  all: assert (Hpos2 : 1 <= shr_m mrs2).
  all: try (rewrite Hm2; apply Z.div_le_lower_bound;
         [apply Z.pow_pos_nonneg; lia |];
       pose proof (Zdigits2_lower m1r ltac:(lia)) as HD;
       assert (HD1 : 1 <= Zdigits2 m1r)
         by (destruct m1r as [| p | p]; simpl; lia);
       pose proof (fexp_shift (Zdigits2 m1r) e1 HD1 ltac:(lia)) as Hsh;
       fold n2 in Hsh;
       assert (2 ^ Z.max n2 0 <= 2 ^ (Zdigits2 m1r - 1))
         by (apply Z.pow_le_mono_r; lia);
       lia).
  all: destruct (shr_m mrs2) as [| m2 | m2] eqn:Em2; try lia.
  all: destruct (e2 <=? emax - prec); [| reflexivity].
  all: unfold SFleb, SFcompare.
  all: destruct (Z.compare_spec e0 e2) as [Heq | Hlt | Hgt];
         [| reflexivity | lia].
  all: assert (Hmm : (m0 <= m2)%positive).
  all: try (assert (Hn2 : Z.max n2 0 = 0) by lia;
            rewrite Hn2 in Hm2; simpl in Hm2; rewrite Z.div_1_r in Hm2;
            destruct Hq as [Hq | Hq]; [| lia];
            apply Pos2Z.pos_le_pos; lia).
  all: apply Pos.compare_le_iff in Hmm; unfold Pos.compare in Hmm.
  all: destruct (Pos.compare_cont Eq m0 m2); congruence.
Qed.

Lemma iter_xO_value (m d : positive) :
  Z.pos (Pos.iter xO m d) = Z.pos m * 2 ^ Z.pos d.
Proof.
  induction d as [| d IH] using Pos.peano_ind.
  - simpl. lia.
  - rewrite Pos.iter_succ, Pos2Z.inj_xO, IH, Pos2Z.inj_succ.
    rewrite Z.pow_succ_r by lia. lia.
Qed.

Lemma shl_align_value (m : positive) (e e' : Z) :
  e' <= e -> Z.pos (fst (shl_align m e e')) = Z.pos m * 2 ^ (e - e').
Proof.
  intros He. unfold shl_align.
  destruct (e' - e) as [| d | d] eqn:E; simpl fst; try lia.
  - replace (e - e') with 0 by lia. simpl. lia.
  - rewrite iter_xO_value. f_equal. f_equal. lia.
Qed.

Lemma canonical_ge_emin (m : positive) (e : Z) :
  canonical_mantissa prec emax m e = true -> -1074 <= e.
Proof.
  unfold canonical_mantissa. intros H. apply Z.eqb_eq in H. rewrite <- H.
  apply fexp_ge_emin.
Qed.

(** Non-negative numbers: zero, positive finite, or plus infinity. *)
Definition sf_nonneg_num (x : spec_float) : bool :=
  match x with
  | S754_zero _ => true
  | S754_finite s _ _ | S754_infinity s => negb s
  | S754_nan => false
  end.

(** A sum of two numbers that are not negative is at least each of them. *)
Lemma SFadd_ge_l (x y : spec_float) :
  valid_binary x = true -> valid_binary y = true ->
  sf_nonneg_num x = true -> sf_nonneg_num y = true ->
  SFleb x (SFadd prec emax x y) = true.
Proof.
  destruct x as [sx | [|] | | [|] mx ex], y as [sy | [|] | | [|] my ey];
    simpl; intros Vx Vy Hx Hy; try discriminate; try reflexivity;
    try (destruct sx; try destruct sy; reflexivity).
  - unfold SFleb. rewrite SFcompare_refl; [reflexivity | discriminate].
  - unfold bounded in Vx, Vy.
    apply andb_true_iff in Vx, Vy. destruct Vx as [Cx _], Vy as [Cy _].
    pose proof (canonical_ge_emin _ _ Cx). pose proof (canonical_ge_emin _ _ Cy).
    apply binary_round_ge; [exact Cx | lia |].
    rewrite Pos2Z.inj_add, <- (shl_align_value mx ex (Z.min ex ey)) by lia.
    lia.
Qed.

Lemma SFadd_ge_r (x y : spec_float) :
  valid_binary x = true -> valid_binary y = true ->
  sf_nonneg_num x = true -> sf_nonneg_num y = true ->
  SFleb y (SFadd prec emax x y) = true.
Proof.
  destruct x as [sx | [|] | | [|] mx ex], y as [sy | [|] | | [|] my ey];
    simpl; intros Vx Vy Hx Hy; try discriminate; try reflexivity;
    try (destruct sx; try destruct sy; reflexivity).
  - unfold SFleb. rewrite SFcompare_refl; [reflexivity | discriminate].
  - unfold bounded in Vx, Vy.
    apply andb_true_iff in Vx, Vy. destruct Vx as [Cx _], Vy as [Cy _].
    pose proof (canonical_ge_emin _ _ Cx). pose proof (canonical_ge_emin _ _ Cy).
    apply binary_round_ge; [exact Cy | lia |].
    rewrite Pos2Z.inj_add, <- (shl_align_value my ey (Z.min ex ey)) by lia.
    lia.
Qed.

(** The order of positive finite numbers, and its transitivity. *)
Lemma SFleb_finite (m1 m2 : positive) (e1 e2 : Z) :
  SFleb (S754_finite false m1 e1) (S754_finite false m2 e2) = true <->
  e1 < e2 \/ (e1 = e2 /\ (m1 <= m2)%positive).
Proof.
  unfold SFleb, SFcompare. change (Pos.compare_cont Eq m1 m2) with (m1 ?= m2)%positive.
  destruct (Z.compare_spec e1 e2) as [-> | H | H].
  - destruct (Pos.compare_spec m1 m2) as [-> | Hm | Hm]; split; intros;
      try discriminate; try reflexivity; try (right; split; [reflexivity | lia]);
      try lia.
  - split; [intros _; left; exact H | reflexivity].
  - split; [discriminate | lia].
Qed.

Lemma SFleb_trans_nonneg (x y z : spec_float) :
  sf_nonneg_num x = true ->
  SFleb x y = true -> SFleb y z = true -> SFleb x z = true.
Proof.
  destruct x as [sx | [|] | | [|] mx ex]; try discriminate;
  destruct y as [sy | [|] | | [|] my ey]; try discriminate;
  destruct z as [sz | [|] | | [|] mz ez]; try discriminate;
    intros _ H1 H2; try reflexivity; try discriminate.
  apply SFleb_finite in H1, H2. apply SFleb_finite. lia.
Qed.

Lemma Zdigits2_le (z k : Z) : 0 <= z < 2 ^ k -> 0 <= k -> Zdigits2 z <= k.
Proof.
  intros [Hz Hk] Hk0. destruct (Z.eq_dec z 0) as [-> | Hne]; [simpl; lia |].
  pose proof (Zdigits2_lower z ltac:(lia)) as Hlow.
  destruct (Z.le_gt_cases (Zdigits2 z) k) as [H | H]; [exact H |].
  assert (2 ^ k <= 2 ^ (Zdigits2 z - 1)) by (apply Z.pow_le_mono_r; lia).
  lia.
Qed.

(** A shifted mantissa is marked inexact only when the shift dropped a
    non-zero bit, or it was inexact before. *)
Definition inexact (mrs : shr_record) : bool := shr_r mrs || shr_s mrs.

Lemma shr_1_inexact (mrs : shr_record) :
  0 <= shr_m mrs ->
  inexact (shr_1 mrs) = true ->
  inexact mrs = true \/ shr_m mrs mod 2 <> 0.
Proof.
  destruct mrs as [m r s]. unfold inexact. simpl. intros Hm.
  destruct m as [| [p | p |] | p]; simpl; try lia.
  - destruct r, s; simpl; auto; discriminate.
  - intros _. right. rewrite Pos2Z.inj_xI.
    replace (2 * Z.pos p + 1) with (1 + Z.pos p * 2) by lia.
    rewrite Z_mod_plus_full. discriminate.
  - destruct r, s; simpl; auto; discriminate.
  - intros _. right. discriminate.
Qed.

Lemma iter_shr_1_inexact (k : nat) (mrs : shr_record) :
  0 <= shr_m mrs ->
  inexact (Nat.iter k shr_1 mrs) = true ->
  inexact mrs = true \/ shr_m mrs mod 2 ^ Z.of_nat k <> 0.
Proof.
  intros Hm. induction k as [| k IH]; [simpl; auto |].
  simpl Nat.iter. intros H.
  apply shr_1_inexact in H.
  2: { rewrite iter_shr_1_m by exact Hm. apply Z.div_pos; lia. }
  rewrite Nat2Z.inj_succ, Z.pow_succ_r by lia.
  destruct H as [H | H].
  - destruct (IH H) as [H1 | H1]; [auto |]. right. intros H2. apply H1.
    apply Z.mod_divide in H2; [| lia]. apply Z.mod_divide; [lia |].
    destruct H2 as [c Hc]. exists (c * 2). lia.
  - right. rewrite iter_shr_1_m in H by exact Hm. intros H2. apply H.
    apply Z.mod_divide in H2; [| lia]. destruct H2 as [c Hc].
    rewrite Hc.
    replace (c * (2 * 2 ^ Z.of_nat k)) with (c * 2 * 2 ^ Z.of_nat k) by lia.
    rewrite Z.div_mul by lia. apply Z_mod_mult.
Qed.

Lemma shr_inexact (mrs : shr_record) (e n : Z) :
  0 <= shr_m mrs ->
  inexact (fst (shr mrs e n)) = true ->
  inexact mrs = true \/ shr_m mrs mod 2 ^ Z.max n 0 <> 0.
Proof.
  intros Hm. unfold shr. destruct n as [| p | p]; simpl fst; auto.
  rewrite iter_pos_nat. intros H. apply iter_shr_1_inexact in H; [| exact Hm].
  rewrite positive_nat_Z in H.
  now replace (Z.max (Z.pos p) 0) with (Z.pos p) by lia.
Qed.

Lemma round_nearest_even_le (mrs : shr_record) :
  round_nearest_even (shr_m mrs) (loc_of_shr_record mrs)
  <= shr_m mrs + (if inexact mrs then 1 else 0).
Proof.
  destruct mrs as [m [|] [|]]; unfold inexact; simpl; try lia.
  destruct (Z.even m); lia.
Qed.

Lemma shr_record_of_loc_m (q : Z) (l : location) :
  shr_m (shr_record_of_loc q l) = q.
Proof. now destruct l as [| [| |]]. Qed.

Lemma shr_record_of_loc_inexact (q : Z) (l : location) :
  inexact (shr_record_of_loc q l) = true -> l <> loc_Exact.
Proof. destruct l as [| [| |]]; unfold inexact; simpl; congruence. Qed.

Lemma fexp_le (a b : Z) : a <= b -> fexp prec emax a <= fexp prec emax b.
Proof. unfold fexp. lia. Qed.

(** Rounding a value of [q * 2^e], or just above it when [l] is not exact,
    gives at most any binary64 number [m0 * 2^e0] that the value does not
    exceed. *)
Lemma binary_round_aux_le (q e : Z) (l : location) (m0 : positive) (e0 : Z) :
  0 <= q ->
  bounded prec emax m0 e0 = true ->
  -1074 <= e <= e0 ->
  q <= Z.pos m0 * 2 ^ (e0 - e) ->
  (l <> loc_Exact -> q < Z.pos m0 * 2 ^ (e0 - e)) ->
  SFleb (binary_round_aux prec emax false q e l) (S754_finite false m0 e0)
  = true.
Proof.
  intros Hq Hb He Hle Hlt.
  unfold bounded in Hb. apply andb_true_iff in Hb. destruct Hb as [Hcan Hmax].
  unfold canonical_mantissa in Hcan. apply Z.eqb_eq in Hcan.
  apply Z.leb_le in Hmax.
  set (d0 := Z.pos (digits2_pos m0)) in *.
  pose proof (digits2_pos_upper m0) as Hm0. fold d0 in Hm0.
  assert (Hd0 : 1 <= d0) by (unfold d0; lia).
  (* the first shift *)
  assert (Hdq : Zdigits2 q + e <= d0 + e0).
  { assert (Zdigits2 q <= d0 + (e0 - e)); [| lia].
    apply Zdigits2_le; [| lia]. split; [exact Hq |].
    rewrite Z.pow_add_r by lia.
    assert (0 < 2 ^ (e0 - e)) by (apply Z.pow_pos_nonneg; lia). nia. }
  pose proof (fexp_le _ _ Hdq) as Hfe. rewrite Hcan in Hfe.
  unfold binary_round_aux, shr_fexp.
  set (n1 := fexp prec emax (Zdigits2 q + e) - e) in *.
  pose proof (shr_m_value (shr_record_of_loc q l) e n1) as Hs1.
  pose proof (shr_inexact (shr_record_of_loc q l) e n1) as Hi1.
  rewrite shr_record_of_loc_m in Hs1, Hi1.
  destruct (shr (shr_record_of_loc q l) e n1) as [mrs1 e1].
  simpl in Hs1, Hi1. destruct (Hs1 Hq) as [Hm1 He1]. specialize (Hi1 Hq).
  clear Hs1.
  assert (He10 : e1 <= e0) by lia.
  assert (Hk : 0 < 2 ^ Z.max n1 0) by (apply Z.pow_pos_nonneg; lia).
  assert (Hsplit : 2 ^ (e0 - e) = 2 ^ (e0 - e1) * 2 ^ Z.max n1 0).
  { rewrite <- Z.pow_add_r by lia. f_equal. lia. }
  assert (Hj : 0 < 2 ^ (e0 - e1)) by (apply Z.pow_pos_nonneg; lia).
  pose proof (round_nearest_even_le mrs1) as Hr.
  pose proof (round_nearest_even_ge (shr_m mrs1) (loc_of_shr_record mrs1))
    as Hr'.
  set (m1r := round_nearest_even (shr_m mrs1) (loc_of_shr_record mrs1)) in *.
  assert (Hq1 : shr_m mrs1 <= Z.pos m0 * 2 ^ (e0 - e1)).
  { rewrite Hm1. apply Z.div_le_upper_bound; [exact Hk |]. nia. }
  assert (Hq1' : 0 <= shr_m mrs1) by (rewrite Hm1; apply Z.div_pos; lia).
  assert (Hm1r : m1r <= Z.pos m0 * 2 ^ (e0 - e1)).
  { destruct (inexact mrs1) eqn:Ein; [| lia].
    assert (Hstrict : q < Z.pos m0 * 2 ^ (e0 - e)).
    { destruct (Hi1 eq_refl) as [Hl | Hmod].
      - apply Hlt. now apply (shr_record_of_loc_inexact q).
      - destruct (Z.eq_dec q (Z.pos m0 * 2 ^ (e0 - e))) as [Heq | Hne];
          [| lia].
        exfalso. apply Hmod. rewrite Heq, Hsplit.
        rewrite Z.mul_assoc. apply Z_mod_mult. }
    assert (shr_m mrs1 < Z.pos m0 * 2 ^ (e0 - e1)); [| lia].
    rewrite Hm1. apply Z.div_lt_upper_bound; [exact Hk |]. nia. }
  (* the second shift *)
  assert (HD1 : Zdigits2 m1r + e1 <= d0 + e0).
  { assert (Zdigits2 m1r <= d0 + (e0 - e1)); [| lia].
    apply Zdigits2_le; [| lia]. split; [lia |].
    rewrite Z.pow_add_r by lia. nia. }
  pose proof (fexp_le _ _ HD1) as Hfe2. rewrite Hcan in Hfe2.
  set (n2 := fexp prec emax (Zdigits2 m1r + e1) - e1) in *.
  pose proof (shr_m_value (shr_record_of_loc m1r loc_Exact) e1 n2) as Hs2.
  destruct (shr (shr_record_of_loc m1r loc_Exact) e1 n2) as [mrs2 e2].
  simpl in Hs2. destruct Hs2 as [Hm2 He2]; [lia |].
  assert (Hk2 : 0 < 2 ^ Z.max n2 0) by (apply Z.pow_pos_nonneg; lia).
  assert (Hm2' : 0 <= shr_m mrs2) by (rewrite Hm2; apply Z.div_pos; lia).
  destruct (shr_m mrs2) as [| m2 | m2] eqn:Em2; [reflexivity | | lia].
  destruct (Z.leb_spec e2 (emax - prec)) as [_ | Hov]; [| lia].
  apply SFleb_finite.
  destruct (Z.eq_dec e2 e0) as [Heq | Hne]; [right | left; lia].
  split; [exact Heq |]. assert (Z.pos m2 <= Z.pos m0); [| lia].
  rewrite Hm2. apply Z.div_le_upper_bound; [exact Hk2 |].
  replace (Z.max n2 0) with (e0 - e1) by lia. lia.
Qed.

(** Zero or a positive finite number. *)
Definition sf_finite_num (x : spec_float) : bool :=
  match x with
  | S754_zero _ => true
  | S754_finite s _ _ => negb s
  | _ => false
  end.

Lemma binary_round_aux_negative (q e : Z) (l : location) (y : spec_float) :
  0 <= q -> sf_nonneg_num y = true ->
  SFleb (binary_round_aux prec emax true q e l) y = true.
Proof.
  intros Hq Hy. unfold binary_round_aux, shr_fexp.
  match goal with
  | |- context [shr ?mrs ?ee ?nn] =>
      pose proof (shr_m_value mrs ee nn) as Hs1;
      destruct (shr mrs ee nn) as [mrs1 e1]
  end.
  rewrite shr_record_of_loc_m in Hs1. simpl in Hs1.
  destruct (Hs1 Hq) as [Hm1 _]. clear Hs1.
  pose proof (round_nearest_even_ge (shr_m mrs1) (loc_of_shr_record mrs1))
    as Hr.
  assert (0 <= shr_m mrs1)
    by (rewrite Hm1; apply Z.div_pos; [lia | apply Z.pow_pos_nonneg; lia]).
  match goal with
  | |- context [shr ?mrs ?ee ?nn] =>
      pose proof (shr_m_value mrs ee nn) as Hs2;
      destruct (shr mrs ee nn) as [mrs2 e2]
  end.
  simpl in Hs2. destruct Hs2 as [Hm2 _]; [lia |].
  assert (0 <= shr_m mrs2)
    by (rewrite Hm2; apply Z.div_pos; [lia | apply Z.pow_pos_nonneg; lia]).
  destruct (shr_m mrs2) as [| m2 | m2]; try lia.
  - now destruct y as [sy | [|] | | [|] my ey].
  - destruct (e2 <=? emax - prec);
      now destruct y as [sy | [|] | | [|] my ey].
Qed.

(** Subtracting a number that is not negative from a finite one gives at
    most the finite one. *)
Lemma SFsub_le (x y : spec_float) :
  valid_binary x = true -> valid_binary y = true ->
  sf_finite_num x = true -> sf_nonneg_num y = true ->
  SFleb (SFsub prec emax x y) x = true.
Proof.
  destruct x as [sx | [|] | | [|] mx ex], y as [sy | [|] | | [|] my ey];
    simpl; intros Vx Vy Hx Hy; try discriminate; try reflexivity;
    try (destruct sx; try destruct sy; reflexivity).
  - unfold SFleb. rewrite SFcompare_refl; [reflexivity | discriminate].
  - pose proof Vx as Bx. unfold bounded in Vx, Vy.
    apply andb_true_iff in Vx, Vy. destruct Vx as [Cx _], Vy as [Cy _].
    pose proof (canonical_ge_emin _ _ Cx). pose proof (canonical_ge_emin _ _ Cy).
    set (ez := Z.min ex ey).
    pose proof (shl_align_value mx ex ez ltac:(lia)) as Hpx.
    set (px := fst (shl_align mx ex ez)) in *.
    set (py := fst (shl_align my ey ez)) in *.
    destruct (Z.pos px - Z.pos py) as [| P | P] eqn:EP.
    + reflexivity.
    + unfold binary_normalize, binary_round.
      set (fe := fexp prec emax (Z.pos (digits2_pos P) + ez)).
      pose proof (fexp_ge_emin (Z.pos (digits2_pos P) + ez)) as Hfe.
      fold fe in Hfe. unfold shl_align.
      destruct (fe - ez) as [| n | n] eqn:En.
      * apply binary_round_aux_le; try assumption; try lia; congruence.
      * apply binary_round_aux_le; try assumption; try lia; congruence.
      * assert (Hsplit : 2 ^ (ex - fe) = 2 ^ (ex - ez) * 2 ^ Z.pos n).
        { rewrite <- Z.pow_add_r by lia. f_equal. lia. }
        assert (0 < 2 ^ Z.pos n) by (apply Z.pow_pos_nonneg; lia).
        apply binary_round_aux_le; try assumption; try lia; try congruence.
        rewrite iter_xO_value, Hsplit. nia.
    + unfold binary_normalize, binary_round.
      destruct (shl_align P ez _) as [mz ez'].
      now apply binary_round_aux_negative.
Qed.

Lemma new_location_inexact (n r : Z) :
  new_location n r <> loc_Exact -> r <> 0.
Proof.
  intros H ->. apply H. unfold new_location, new_location_even,
    new_location_odd. now destruct (Z.even n).
Qed.

(** Dividing by a number that is at least one does not round above the
    dividend. *)
Lemma SFdiv_le (x : spec_float) (my : positive) (ey : Z) :
  valid_binary x = true -> sf_finite_num x = true ->
  ey <= 0 -> 2 ^ (- ey) <= Z.pos my ->
  SFleb (SFdiv prec emax x (S754_finite false my ey)) x = true.
Proof.
  destruct x as [sx | [|] | | [|] mx ex]; simpl;
    intros Vx Hx Hey Hmy; try discriminate; try reflexivity.
  pose proof Vx as Bx. unfold bounded in Vx.
  apply andb_true_iff in Vx. destruct Vx as [Cx _].
  pose proof (canonical_ge_emin _ _ Cx) as Hex.
  unfold canonical_mantissa in Cx. apply Z.eqb_eq in Cx.
  unfold SFdiv_core_binary. simpl Zdigits2.
  set (d1 := Z.pos (digits2_pos mx)) in *.
  set (d2 := Z.pos (digits2_pos my)).
  assert (Hd2 : 1 <= d2 + ey).
  { pose proof (digits2_pos_upper my) as Hup. fold d2 in Hup.
    assert (H : 2 ^ (- ey) < 2 ^ d2) by lia.
    apply Z.pow_lt_mono_r_iff in H; unfold d2; lia. }
  set (e' := Z.min (fexp prec emax (d1 + ex - (d2 + ey))) (ex - ey)).
  assert (He' : -1074 <= e' <= ex).
  { pose proof (fexp_ge_emin (d1 + ex - (d2 + ey))).
    pose proof (fexp_le (d1 + ex - (d2 + ey)) (d1 + ex) ltac:(lia)).
    unfold e'. lia. }
  set (s := ex - ey - e').
  assert (Hs : 0 <= s) by (unfold s, e'; lia).
  set (m' := match s with
             | 0 => Z.pos mx
             | Z.pos _ => Z.shiftl (Z.pos mx) s
             | Z.neg _ => 0
             end).
  assert (Hm' : m' = Z.pos mx * 2 ^ s).
  { unfold m'. clearbody s. destruct s as [| p | p]; try lia.
    now rewrite Z.shiftl_mul_pow2 by lia. }
  pose proof (Z_div_mod m' (Z.pos my) ltac:(lia)) as Hdiv.
  destruct (Z.div_eucl m' (Z.pos my)) as [q r].
  destruct Hdiv as [Hqr Hr].
  assert (H2s : 2 ^ s = 2 ^ (ex - e') * 2 ^ (- ey)).
  { rewrite <- Z.pow_add_r by lia. f_equal. unfold s. lia. }
  assert (Hpe : 0 < 2 ^ (- ey)) by (apply Z.pow_pos_nonneg; lia).
  assert (Hpx : 0 < 2 ^ (ex - e')) by (apply Z.pow_pos_nonneg; lia).
  assert (Hps : 0 < 2 ^ s) by (apply Z.pow_pos_nonneg; lia).
  assert (Hm0 : 0 <= m') by (rewrite Hm'; apply Z.mul_nonneg_nonneg; lia).
  assert (Hq0 : 0 <= q).
  { destruct (Z.le_gt_cases 0 q) as [H | H]; [exact H |].
    assert (Z.pos my * q <= - Z.pos my) by nia. lia. }
  assert (Hqm : q * 2 ^ (- ey) <= q * Z.pos my)
    by (apply Z.mul_le_mono_nonneg_l; lia).
  assert (Hmx : m' = Z.pos mx * 2 ^ (ex - e') * 2 ^ (- ey))
    by (rewrite Hm', H2s; lia).
  apply binary_round_aux_le; try assumption.
  - apply (Z.mul_le_mono_pos_r _ _ (2 ^ (- ey))); [exact Hpe |]. lia.
  - intros Hl. apply new_location_inexact in Hl.
    apply (Z.mul_lt_mono_pos_r (2 ^ (- ey))); [exact Hpe |]. lia.
Qed.

(** A positive integer below [2^53] converts to the binary64 number equal
    to it. *)
Lemma binary_normalize_value (p : positive) :
  Z.pos p < 2 ^ 53 ->
  exists m e,
    binary_normalize prec emax (Z.pos p) 0 false = S754_finite false m e /\
    e <= 0 /\ Z.pos m = Z.pos p * 2 ^ (- e).
Proof.
  intros Hp. unfold binary_normalize, binary_round.
  pose proof (digits2_pos_lower p) as Hlow.
  assert (Hd : Z.pos (digits2_pos p) <= 53).
  { destruct (Z.le_gt_cases (Z.pos (digits2_pos p)) 53) as [H | H];
      [exact H |].
    assert (2 ^ 53 <= 2 ^ (Z.pos (digits2_pos p) - 1))
      by (apply Z.pow_le_mono_r; lia).
    lia. }
  assert (Hf : fexp prec emax (Z.pos (digits2_pos p) + 0)
               = Z.pos (digits2_pos p) - 53).
  { unfold fexp, emin, prec, emax. lia. }
  rewrite Hf. unfold shl_align.
  destruct (Z.pos (digits2_pos p) - 53 - 0) as [| d | d] eqn:E; try lia.
  - exists p, 0. split; [| simpl; lia].
    apply binary_round_aux_canonical; [unfold prec; lia | lia].
  - eexists _, _. split; [| split].
    + apply binary_round_aux_canonical.
      * rewrite digits2_pos_iter. unfold prec. lia.
      * lia.
    + lia.
    + rewrite iter_xO_value. f_equal. f_equal. lia.
Qed.

Lemma Z2F_value (z : Z) :
  0 < z < 2 ^ 53 ->
  exists m e,
    Prim2SF (Z2F z) = S754_finite false m e /\
    e <= 0 /\ Z.pos m = z * 2 ^ (- e).
Proof.
  intros Hz. unfold Z2F.
  destruct (Z.ltb_spec (Z.abs z) (2 ^ 63)) as [_ | ?]; [| lia].
  destruct (Z.ltb_spec z 0) as [? | _]; [lia |].
  rewrite of_uint63_spec, Uint63.of_Z_spec.
  rewrite Z.mod_small by (change Uint63.wB with (2 ^ 63); lia).
  destruct z as [| p | p]; try lia. now apply binary_normalize_value.
Qed.

#[local] Close Scope Z_scope.

Lemma Z2F_finite (z : Z) :
  (0 < z < 2 ^ 53)%Z ->
  exists m e, Prim2SF (Z2F z) = S754_finite false m e.
Proof.
  intros Hz. destruct (Z2F_value z Hz) as (m & e & H & _). eauto.
Qed.

Lemma is_finite_spec (x : float) :
  is_finite x = true ->
  match Prim2SF x with
  | S754_zero _ | S754_finite _ _ _ => True
  | _ => False
  end.
Proof.
  unfold is_finite, is_nan, is_infinity.
  rewrite !FloatAxioms.eqb_spec, abs_spec.
  change (Prim2SF infinity) with (S754_infinity false).
  unfold SFeqb.
  destruct (Prim2SF x) as [s | [|] | | s m e]; simpl; try discriminate; auto.
Qed.

(** ** The order of binary64 numbers *)

Lemma leb_zero_spec (x : float) :
  (0 <=? x) = true <-> sf_nonneg_num (Prim2SF x) = true.
Proof.
  rewrite leb_spec, Prim2SF_zero. unfold SFleb.
  destruct (Prim2SF x) as [s | [|] | | [|] m e]; simpl; split; congruence.
Qed.

Lemma add_ge_l (a b : float) :
  (0 <=? a) = true -> (0 <=? b) = true -> (a <=? a + b) = true.
Proof.
  rewrite !leb_zero_spec, leb_spec, add_spec.
  apply SFadd_ge_l; apply Prim2SF_valid.
Qed.

Lemma add_ge_r (a b : float) :
  (0 <=? a) = true -> (0 <=? b) = true -> (b <=? a + b) = true.
Proof.
  rewrite !leb_zero_spec, leb_spec, add_spec.
  apply SFadd_ge_r; apply Prim2SF_valid.
Qed.

Lemma leb_trans (a b c : float) :
  (0 <=? a) = true -> (a <=? b) = true -> (b <=? c) = true ->
  (a <=? c) = true.
Proof. rewrite leb_zero_spec, !leb_spec. apply SFleb_trans_nonneg. Qed.

Lemma eqb_leb (a b : float) : (a =? b) = true -> (a <=? b) = true.
Proof.
  rewrite FloatAxioms.eqb_spec, leb_spec. unfold SFeqb, SFleb.
  now destruct (SFcompare (Prim2SF a) (Prim2SF b)) as [[| |] |].
Qed.

(** A number that is neither positive nor below zero is at most zero. *)
Lemma not_positive_leb (x : float) :
  (0 <=? x) = true -> (0 <? x) = false -> (x <=? 0) = true.
Proof.
  rewrite leb_zero_spec, ltb_spec, leb_spec, Prim2SF_zero.
  unfold SFltb, SFleb.
  destruct (Prim2SF x) as [s | [|] | | [|] m e]; simpl; congruence.
Qed.

(** What compares below something and is not negative is a number not
    below zero. *)
Lemma ltb_not_negative (x y : float) :
  (x <? y) = true -> (x <? 0) = false -> (0 <=? x) = true.
Proof.
  rewrite leb_zero_spec, !ltb_spec, Prim2SF_zero. unfold SFltb.
  destruct (Prim2SF x) as [s | [|] | | [|] m e]; simpl; try congruence.
  all: destruct (Prim2SF y) as [sy | [|] | | [|] my ey]; simpl; congruence.
Qed.

Lemma py_max_number (x : float) : (0 <=? py_max 0 x) = true.
Proof.
  unfold py_max. destruct (0 <? x) eqn:E; [now apply ltb_leb | reflexivity].
Qed.

Lemma py_min_number (N x : float) :
  (0 <? N) = true -> (x <? 0) = false -> (0 <=? py_min N x) = true.
Proof.
  intros HN Hx. unfold py_min. destruct (x <? N) eqn:E.
  - eapply ltb_not_negative; eassumption.
  - now apply ltb_leb.
Qed.

(** The same on primitive floats. *)
Lemma finite_num_spec (x : float) :
  (0 <=? x) = true -> is_finite x = true ->
  sf_finite_num (Prim2SF x) = true.
Proof.
  intros H0 Hf. apply leb_zero_spec in H0. apply is_finite_spec in Hf.
  destruct (Prim2SF x) as [s | [|] | | [|] m e]; simpl in *;
    try contradiction; congruence.
Qed.

Lemma is_finite_intro (x : float) :
  match Prim2SF x with
  | S754_zero _ | S754_finite _ _ _ => True
  | _ => False
  end ->
  is_finite x = true.
Proof.
  unfold is_finite, is_nan, is_infinity.
  rewrite !FloatAxioms.eqb_spec, abs_spec.
  change (Prim2SF infinity) with (S754_infinity false).
  unfold SFeqb.
  destruct (Prim2SF x) as [s | [|] | | [|] m e] eqn:E; try contradiction;
    intros _; rewrite SFcompare_refl by discriminate; reflexivity.
Qed.

Lemma sub_le (a b : float) :
  (0 <=? a) = true -> is_finite a = true -> (0 <=? b) = true ->
  (a - b <=? a) = true.
Proof.
  intros Ha Hf Hb. pose proof (finite_num_spec a Ha Hf) as Ha'.
  apply leb_zero_spec in Hb. rewrite leb_spec, sub_spec.
  apply SFsub_le; try apply Prim2SF_valid; assumption.
Qed.

Lemma div_count_le (a : float) (z : Z) :
  (0 <=? a) = true -> is_finite a = true -> (0 < z < 2 ^ 53)%Z ->
  (a / Z2F z <=? a) = true.
Proof.
  intros Ha Hf Hz. pose proof (finite_num_spec a Ha Hf) as Ha'.
  destruct (Z2F_value z Hz) as (m & e & Hm & He & Hv).
  rewrite leb_spec, div_spec, Hm.
  apply SFdiv_le; try apply Prim2SF_valid; try assumption.
  rewrite Hv. assert (0 < 2 ^ (- e))%Z by (apply Z.pow_pos_nonneg; lia).
  assert (1 * 2 ^ (- e) <= z * 2 ^ (- e))%Z
    by (apply Z.mul_le_mono_nonneg_r; lia).
  lia.
Qed.

(** A number that is not negative and at most a finite one is finite. *)
Lemma leb_finite (x y : float) :
  (0 <=? x) = true -> (x <=? y) = true -> is_finite y = true ->
  is_finite x = true.
Proof.
  intros H0 Hle Hy. apply leb_zero_spec in H0. apply is_finite_spec in Hy.
  rewrite leb_spec in Hle. unfold SFleb in Hle. apply is_finite_intro.
  destruct (Prim2SF x) as [s | [|] | | [|] m e]; simpl in *;
    try discriminate; auto.
  destruct (Prim2SF y) as [sy | [|] | | [|] my ey]; simpl in *;
    try contradiction; discriminate.
Qed.

(** The step size of line 87 is a finite number from [0] to
    [total_time]. *)
Lemma step_finite (total_time : float) (time_steps : Z) :
  (0 <? total_time) = true -> is_finite total_time = true ->
  fits time_steps ->
  (0 <=? total_time / Z2F time_steps) = true /\
  (total_time / Z2F time_steps <=? total_time) = true /\
  is_finite (total_time / Z2F time_steps) = true.
Proof.
  intros HT Hf Hfit. unfold fits in Hfit. pose proof (ltb_leb _ _ HT) as HT0.
  pose proof (div_count_le total_time time_steps HT0 Hf Hfit) as Hle.
  assert (H0 : (0 <=? total_time / Z2F time_steps) = true).
  { apply leb_zero_spec.
    pose proof (div_unsigned total_time (Z2F time_steps)
                  (positive_unsigned _ HT)
                  (Z2F_unsigned time_steps ltac:(lia))) as Hu.
    rewrite leb_spec in Hle. unfold SFleb in Hle.
    destruct (Prim2SF (total_time / Z2F time_steps))
      as [s | [|] | | [|] m e]; simpl in *; congruence. }
  split; [exact H0 |]. split; [exact Hle |].
  now apply (leb_finite _ total_time).
Qed.

(** ** What the binary64 run keeps *)

Lemma sir_next_not_negative
    (N gamma b dt : float) (x : float * float * float) :
  (0 <? N) = true -> not_negative gamma -> not_negative dt ->
  not_negative (snd (fst x)) -> not_negative (snd x) ->
  not_negative (fst (fst (sir_next N gamma b dt x))) /\
  not_negative (snd (fst (sir_next N gamma b dt x))) /\
  not_negative (snd (sir_next N gamma b dt x)).
Proof.
  destruct x as [[s i] r]. cbn [fst snd]. intros HN Hg Hdt Hi Hr.
  pose proof (positive_not_negative N HN) as HN'.
  unfold sir_next.
  set (s2 := py_max 0 (s + - b * s * i / N * dt)).
  set (i2 := py_max 0 (i + (b * s * i / N - gamma * i) * dt)).
  set (r2 := py_min N (r + gamma * i * dt)).
  assert (Hs2 : not_negative s2) by apply py_max_not_negative.
  assert (Hi2 : not_negative i2) by apply py_max_not_negative.
  assert (Hr2 : not_negative r2).
  { apply py_min_not_negative; [exact HN' |].
    apply add_not_negative; [exact Hr |].
    apply mul_not_negative; [apply mul_not_negative |]; assumption. }
  cbv zeta.
  destruct (negb (s2 + i2 + r2 =? N) && (0 <? s2 + i2 + r2)) eqn:E;
    cbn [fst snd]; [| auto].
  apply andb_true_iff in E. destruct E as (_ & Hpos).
  assert (Hf : not_negative (N / (s2 + i2 + r2))).
  { apply div_not_negative; [exact HN' | now apply positive_unsigned]. }
  repeat split; apply mul_not_negative; assumption.
Qed.

Lemma trajectory_not_negative
    (N I0 R0_param beta gamma total_time : float) (time_steps : Z)
    (intervencao_dia beta_pos_intervencao : option float) (k : nat) :
  valid_config N I0 R0_param beta gamma total_time time_steps
    intervencao_dia beta_pos_intervencao ->
  fits time_steps ->
  let x := trajectory N I0 R0_param beta gamma total_time time_steps
             intervencao_dia beta_pos_intervencao k in
  not_negative (fst (fst x)) /\ not_negative (snd (fst x)) /\
  not_negative (snd x).
Proof.
  intros (HN & _ & HI0 & _ & HR0 & _ & HS0 & _ & _ & Hg & _ & HT & _) Hfit.
  cbv zeta. induction k as [| k (IHs & IHi & IHr)].
  - simpl. repeat split; now apply leb_zero_nonneg.
  - simpl. apply sir_next_not_negative; try assumption.
    + now apply positive_not_negative.
    + unfold step_size. apply div_not_negative.
      * now apply positive_not_negative.
      * apply Z2F_unsigned. unfold fits in Hfit. lia.
Qed.

Lemma valid_has_rates
    (N I0 R0_param beta gamma total_time : float) (time_steps : Z)
    (intervencao_dia beta_pos_intervencao : option float) :
  valid_config N I0 R0_param beta gamma total_time time_steps
    intervencao_dia beta_pos_intervencao ->
  forall t_i,
    is_Some (current_beta beta intervencao_dia beta_pos_intervencao t_i).
Proof.
  intros Hv t_i. unfold current_beta.
  destruct Hv as (_&_&_&_&_&_&_&_&_&_&_&_&_&_& Hrate).
  destruct intervencao_dia as [dia |]; [| eauto].
  destruct (dia <=? t_i); eauto.
Qed.

(** A step is its clamped forward update, rescaled when the guard holds. *)
Lemma sir_next_clamped
    (N gamma b dt : float) (x : float * float * float) :
  sir_next N gamma b dt x
  = let c := clamped_step N gamma b dt x in
    if rescales N c then
      let total := fst (fst c) + snd (fst c) + snd c in
      (fst (fst c) * (N / total), snd (fst c) * (N / total),
       snd c * (N / total))
    else c.
Proof. destruct x as [[s i] r]. reflexivity. Qed.

(** The initial values of a valid configuration are at most [N]. *)
Lemma initial_at_most
    (N I0 R0_param beta gamma total_time : float) (time_steps : Z)
    (intervencao_dia beta_pos_intervencao : option float) :
  valid_config N I0 R0_param beta gamma total_time time_steps
    intervencao_dia beta_pos_intervencao ->
  (N - I0 - R0_param <=? N) = true /\ (I0 <=? N) = true /\
  (R0_param <=? N) = true.
Proof.
  intros (HN & HNfin & HI0 & HIN & HR0 & HRle & HS0 & _).
  pose proof (ltb_leb _ _ HN) as HN0.
  pose proof (sub_le N I0 HN0 HNfin HI0) as Ht.
  assert (Ht0 : (0 <=? N - I0) = true)
    by (apply (leb_trans 0 R0_param); [reflexivity | exact HR0 | exact HRle]).
  pose proof (leb_finite _ _ Ht0 Ht HNfin) as Htfin.
  pose proof (sub_le (N - I0) R0_param Ht0 Htfin HR0) as HS.
  split; [| split; [exact HIN |]].
  - apply (leb_trans _ (N - I0)); assumption.
  - apply (leb_trans _ (N - I0)); assumption.
Qed.



(** ** No infected at the start *)

Definition sf_zero_or_nan (x : spec_float) : bool :=
  match x with
  | S754_zero _ | S754_nan => true
  | _ => false
  end.

(** Zero of either sign, or [nan]: not a number different from zero. *)
Definition zero_or_nan (x : float) : Prop :=
  sf_zero_or_nan (Prim2SF x) = true.

Lemma zero_or_nan_spec (x : float) :
  zero_or_nan x -> (x =? 0) = true \/ is_nan x = true.
Proof.
  unfold zero_or_nan, is_nan. rewrite !FloatAxioms.eqb_spec, Prim2SF_zero.
  unfold SFeqb.
  destruct (Prim2SF x) as [s | s | | s m e]; simpl; try discriminate; auto.
Qed.

Lemma eqb_zero_or_nan (x : float) : (x =? 0) = true -> zero_or_nan x.
Proof.
  unfold zero_or_nan. rewrite FloatAxioms.eqb_spec, Prim2SF_zero.
  unfold SFeqb.
  destruct (Prim2SF x) as [s | s | | s m e]; try destruct s; simpl;
    congruence.
Qed.

Lemma SFmul_zero_l (x y : spec_float) :
  sf_zero_or_nan x = true -> sf_zero_or_nan (SFmul prec emax x y) = true.
Proof.
  destruct x as [sx | sx | | sx mx ex], y as [sy | sy | | sy my ey];
    simpl; congruence.
Qed.

Lemma SFmul_zero_r (x y : spec_float) :
  sf_zero_or_nan y = true -> sf_zero_or_nan (SFmul prec emax x y) = true.
Proof.
  destruct x as [sx | sx | | sx mx ex], y as [sy | sy | | sy my ey];
    simpl; congruence.
Qed.

Lemma SFdiv_zero_l (x y : spec_float) :
  sf_zero_or_nan x = true -> sf_zero_or_nan (SFdiv prec emax x y) = true.
Proof.
  destruct x as [sx | sx | | sx mx ex], y as [sy | sy | | sy my ey];
    simpl; congruence.
Qed.

Lemma SFadd_zero (x y : spec_float) :
  sf_zero_or_nan x = true -> sf_zero_or_nan y = true ->
  sf_zero_or_nan (SFadd prec emax x y) = true.
Proof.
  destruct x as [sx | sx | | sx mx ex], y as [sy | sy | | sy my ey];
    try destruct sx; try destruct sy; simpl; congruence.
Qed.

Lemma SFsub_zero (x y : spec_float) :
  sf_zero_or_nan x = true -> sf_zero_or_nan y = true ->
  sf_zero_or_nan (SFsub prec emax x y) = true.
Proof.
  destruct x as [sx | sx | | sx mx ex], y as [sy | sy | | sy my ey];
    try destruct sx; try destruct sy; simpl; congruence.
Qed.

Lemma mul_zero_l (x y : float) : zero_or_nan x -> zero_or_nan (x * y).
Proof. unfold zero_or_nan. rewrite mul_spec. apply SFmul_zero_l. Qed.

Lemma mul_zero_r (x y : float) : zero_or_nan y -> zero_or_nan (x * y).
Proof. unfold zero_or_nan. rewrite mul_spec. apply SFmul_zero_r. Qed.

Lemma div_zero_l (x y : float) : zero_or_nan x -> zero_or_nan (x / y).
Proof. unfold zero_or_nan. rewrite div_spec. apply SFdiv_zero_l. Qed.

Lemma add_zero (x y : float) :
  zero_or_nan x -> zero_or_nan y -> zero_or_nan (x + y).
Proof. unfold zero_or_nan. rewrite add_spec. apply SFadd_zero. Qed.

Lemma sub_zero (x y : float) :
  zero_or_nan x -> zero_or_nan y -> zero_or_nan (x - y).
Proof. unfold zero_or_nan. rewrite sub_spec. apply SFsub_zero. Qed.

(** [max(0, x)] is the integer [0] when [x] is zero or [nan]. *)
Lemma py_max_zero (x : float) : zero_or_nan x -> py_max 0 x = 0.
Proof.
  unfold zero_or_nan, py_max. rewrite ltb_spec, Prim2SF_zero.
  unfold SFltb.
  destruct (Prim2SF x) as [s | s | | s m e]; simpl; congruence.
Qed.

Lemma sir_next_zero
    (N gamma b dt : float) (x : float * float * float) :
  zero_or_nan (snd (fst x)) ->
  zero_or_nan (snd (fst (sir_next N gamma b dt x))).
Proof.
  destruct x as [[s i] r]. cbn [fst snd]. intros Hi. unfold sir_next.
  assert (Hj : py_max 0 (i + (b * s * i / N - gamma * i) * dt) = 0).
  { apply py_max_zero, add_zero; [exact Hi |].
    apply mul_zero_l, sub_zero; [| now apply mul_zero_r].
    now apply div_zero_l, mul_zero_r. }
  rewrite Hj. cbv zeta.
  match goal with |- context [if ?c then _ else _] => destruct c end;
    cbn [fst snd]; [apply mul_zero_l |]; reflexivity.
Qed.

Lemma trajectory_zero
    (N I0 R0_param beta gamma total_time : float) (time_steps : Z)
    (intervencao_dia beta_pos_intervencao : option float) (k : nat) :
  zero_or_nan I0 ->
  zero_or_nan
    (snd (fst (trajectory N I0 R0_param beta gamma total_time time_steps
                 intervencao_dia beta_pos_intervencao k))).
Proof.
  intros H0. induction k as [| k IH]; [exact H0 |].
  simpl. now apply sir_next_zero.
Qed.

(** C6, as the code has it.  A valid configuration with no infected at the
    start, whose step count fits, returns a result in which no infected ever
    appear: [I[k]] is zero at every index [k] from [0] to [time_steps],
    unless an overflow has made it [nan]; it is never a positive or a
    negative number.  [S[0]] is the initial number of susceptibles.  (The
    later [S[k]] need not equal it: the rescaling moves them.) *)
Theorem no_infected_stay_zero
    (N I0 R0_param beta gamma total_time : float) (time_steps : Z)
    (intervencao_dia beta_pos_intervencao : option float) :
  valid_config N I0 R0_param beta gamma total_time time_steps
    intervencao_dia beta_pos_intervencao ->
  fits time_steps ->
  (I0 =? 0) = true ->
  exists res,
    run_sir_model N I0 R0_param beta gamma total_time time_steps
      intervencao_dia beta_pos_intervencao
    = Returns res /\
    res_S res !! 0%nat = Some (N - I0 - R0_param) /\
    forall k, (k <= Z.to_nat time_steps)%nat ->
      exists i,
        res_I res !! k = Some i /\
        ((i =? 0) = true \/ is_nan i = true) /\
        (0 <? i) = false /\ (i <? 0) = false.
Proof.
  intros Hv Hfit Hzero.
  destruct (run_result N I0 R0_param beta gamma total_time time_steps
              intervencao_dia beta_pos_intervencao Hfit)
    as (res & Hrun & _ & _ & _ & Hst).
  { intros k _. now apply (valid_has_rates _ _ _ _ _ _ _ _ _ Hv). }
  exists res. split; [exact Hrun |]. split.
  { pose proof (Hst 0%nat ltac:(lia)) as H0. simpl in H0.
    apply cells_lookup in H0. simpl in H0. tauto. }
  intros k Hk.
  pose proof (trajectory_zero N I0 R0_param beta gamma total_time time_steps
                intervencao_dia beta_pos_intervencao k
                (eqb_zero_or_nan I0 Hzero)) as Hz.
  specialize (Hst k Hk).
  destruct (trajectory N I0 R0_param beta gamma total_time time_steps
              intervencao_dia beta_pos_intervencao k) as [[s i] r].
  cbn [fst snd] in Hz. apply cells_lookup in Hst. simpl in Hst.
  exists i. split; [tauto |]. split; [now apply zero_or_nan_spec |].
  unfold zero_or_nan in Hz. rewrite !ltb_spec, Prim2SF_zero.
  unfold SFltb.
  destruct (Prim2SF i) as [si | si | | si mi ei]; simpl in *;
    try discriminate; auto.
Qed.

(** ** The time axis *)

(** The time points before the last, without the zero start: [k * dt], or
    [k / time_steps * total_time] when [dt] has rounded to zero, with
    [dt = total_time / time_steps] as line 87 computes it. *)
Lemma time_point_rounded (total_time : float) (time_steps : Z) (k : nat) :
  (0 <? total_time) = true -> fits time_steps ->
  (k < Z.to_nat time_steps)%nat ->
  time_point total_time time_steps k
  = let dt := total_time / Z2F time_steps in
    if dt =? 0 then Z2F (Z.of_nat k) / Z2F time_steps * total_time
    else Z2F (Z.of_nat k) * dt.
Proof.
  intros HT Hfit Hk. unfold fits in Hfit.
  unfold time_point, linspace_sample.
  replace (time_steps + 1 - 1)%Z with time_steps by lia.
  destruct (Z.ltb_spec 0 time_steps) as [_ | ?]; [| lia].
  rewrite sub_zero_r. cbv zeta. apply add_zero_r.
  pose proof (positive_unsigned _ HT) as HT'.
  assert (Hn : sf_unsigned (Prim2SF (Z2F time_steps)) = true)
    by (apply Z2F_unsigned; lia).
  assert (Hkk : sf_unsigned (Prim2SF (Z2F (Z.of_nat k))) = true)
    by (apply Z2F_unsigned; lia).
  destruct (total_time / Z2F time_steps =? 0).
  - now apply mul_unsigned; [apply div_unsigned |].
  - now apply mul_unsigned; [| apply div_unsigned].
Qed.

(** The first time point is zero: the step size is finite. *)
Lemma time_point_start (total_time : float) (time_steps : Z) :
  (0 <? total_time) = true -> is_finite total_time = true ->
  fits time_steps ->
  time_point total_time time_steps 0 = 0.
Proof.
  intros HT HTfin Hfit.
  destruct (step_finite total_time time_steps HT HTfin Hfit)
    as (Hdt0 & _ & Hdt).
  rewrite time_point_rounded by (try assumption; unfold fits in Hfit; lia).
  cbv zeta. change (Z2F (Z.of_nat 0)) with 0.
  destruct (Z2F_finite time_steps Hfit) as (mn & en & Hn).
  pose proof (positive_unsigned _ HT) as HT'.
  pose proof (is_finite_spec _ HTfin) as HT''.
  pose proof (finite_num_spec _ Hdt0 Hdt) as Hdt'.
  assert (Hdt'' : sf_unsigned (Prim2SF (total_time / Z2F time_steps)) = true).
  { apply div_unsigned; [exact HT' |]. now rewrite Hn. }
  apply Prim2SF_inj.
  destruct (total_time / Z2F time_steps =? 0).
  - rewrite mul_spec, div_spec, Hn, Prim2SF_zero.
    destruct (Prim2SF total_time) as [[|] | [|] | | [|] m e];
      try discriminate HT'; try contradiction; reflexivity.
  - rewrite mul_spec, Prim2SF_zero.
    destruct (Prim2SF (total_time / Z2F time_steps))
      as [[|] | [|] | | [|] m e];
      try discriminate Hdt'; try discriminate Hdt''; reflexivity.
Qed.

(** C8, as the code has it.  A valid configuration whose step count fits
    returns a time axis and three compartment sequences of [time_steps + 1]
    values each.  The last time point is [total_time]; the time point [k]
    before it is the rounded product [k * dt], with [dt] the rounded
    quotient [total_time / time_steps], a finite number from [0] to
    [total_time] (and the rounded [k / time_steps * total_time] when [dt]
    has rounded to zero); the first one is [0].  (The points are evenly
    spaced up to this rounding only.) *)
Theorem time_axis_and_lengths
    (N I0 R0_param beta gamma total_time : float) (time_steps : Z)
    (intervencao_dia beta_pos_intervencao : option float) :
  valid_config N I0 R0_param beta gamma total_time time_steps
    intervencao_dia beta_pos_intervencao ->
  fits time_steps ->
  exists res,
    run_sir_model N I0 R0_param beta gamma total_time time_steps
      intervencao_dia beta_pos_intervencao
    = Returns res /\
    (Z.of_nat (length (res_t res)) = time_steps + 1 /\
     Z.of_nat (length (res_S res)) = time_steps + 1 /\
     Z.of_nat (length (res_I res)) = time_steps + 1 /\
     Z.of_nat (length (res_R res)) = time_steps + 1)%Z /\
    res_t res !! 0%nat = Some 0 /\
    res_t res !! Z.to_nat time_steps = Some total_time /\
    let dt := total_time / Z2F time_steps in
    (is_finite dt = true /\ (0 <=? dt) = true /\
     (dt <=? total_time) = true) /\
    forall k, (k < Z.to_nat time_steps)%nat ->
      res_t res !! k
      = Some (if dt =? 0
              then Z2F (Z.of_nat k) / Z2F time_steps * total_time
              else Z2F (Z.of_nat k) * dt).
Proof.
  intros Hv Hfit.
  destruct (run_result N I0 R0_param beta gamma total_time time_steps
              intervencao_dia beta_pos_intervencao Hfit)
    as (res & Hrun & (Ht & HS & HI & HR) & Hpts & Hlast & _).
  { intros k _. now apply (valid_has_rates _ _ _ _ _ _ _ _ _ Hv). }
  destruct Hv as (_&_&_&_&_&_&_&_&_&_&_& HT & HTfin & _).
  exists res. split; [exact Hrun |]. pose proof Hfit as Hfit'.
  unfold fits in Hfit'.
  split; [rewrite Ht, HS, HI, HR; lia |].
  split; [rewrite (Hpts 0%nat) by lia; now rewrite time_point_start |].
  split; [exact Hlast |]. cbv zeta.
  destruct (step_finite total_time time_steps HT HTfin Hfit)
    as (Hdt0 & Hdtle & Hdt).
  split; [auto |].
  intros k Hk. rewrite (Hpts k Hk). now rewrite time_point_rounded.
Qed.

(** ** At most the population *)

(** When the rescaling is skipped, each clamped value is at most the
    rounded total, which is [N] or is not positive. *)
Lemma clamped_at_most
    (N gamma b dt : float) (x : float * float * float) :
  (0 <? N) = true -> (gamma <? 0) = false -> (dt <? 0) = false ->
  (snd (fst x) <? 0) = false -> (snd x <? 0) = false ->
  rescales N (clamped_step N gamma b dt x) = false ->
  (fst (fst (clamped_step N gamma b dt x)) <=? N) = true /\
  (snd (fst (clamped_step N gamma b dt x)) <=? N) = true /\
  (snd (clamped_step N gamma b dt x) <=? N) = true.
Proof.
  destruct x as [[s i] r]. cbn [fst snd]. intros HN Hg Hdt Hi Hr.
  unfold clamped_step, rescales.
  set (s2 := py_max 0 (s + - b * s * i / N * dt)).
  set (i2 := py_max 0 (i + (b * s * i / N - gamma * i) * dt)).
  set (r2 := py_min N (r + gamma * i * dt)).
  cbn [fst snd]. cbv zeta.
  assert (Hs2 : (0 <=? s2) = true) by apply py_max_number.
  assert (Hi2 : (0 <=? i2) = true) by apply py_max_number.
  assert (Hr2 : (0 <=? r2) = true).
  { apply py_min_number; [exact HN |].
    apply add_not_negative; [exact Hr |].
    apply mul_not_negative; [apply mul_not_negative |]; assumption. }
  pose proof (add_ge_l s2 i2 Hs2 Hi2) as Hs.
  pose proof (add_ge_r s2 i2 Hs2 Hi2) as Hi'.
  assert (Ht1 : (0 <=? s2 + i2) = true)
    by (apply (leb_trans 0 s2); [reflexivity | exact Hs2 | exact Hs]).
  pose proof (add_ge_l (s2 + i2) r2 Ht1 Hr2) as Ht.
  pose proof (add_ge_r (s2 + i2) r2 Ht1 Hr2) as Hr'.
  assert (Htot : (0 <=? s2 + i2 + r2) = true)
    by (apply (leb_trans 0 (s2 + i2)); [reflexivity | exact Ht1 | exact Ht]).
  intros Hguard.
  assert (HtN : (s2 + i2 + r2 <=? N) = true).
  { apply andb_false_iff in Hguard. destruct Hguard as [Heq | Hpos].
    - apply negb_false_iff in Heq. now apply eqb_leb.
    - apply (leb_trans _ 0); [exact Htot | now apply not_positive_leb |].
      now apply ltb_leb. }
  assert (H1N : (s2 + i2 <=? N) = true)
    by (apply (leb_trans _ (s2 + i2 + r2)); assumption).
  repeat split.
  - apply (leb_trans _ (s2 + i2)); assumption.
  - apply (leb_trans _ (s2 + i2)); assumption.
  - apply (leb_trans _ (s2 + i2 + r2)); assumption.
Qed.

(** C9, as the code has it.  A valid configuration whose step count fits
    returns a result with [S[0] <= N], [I[0] <= N] and, after every step [k]
    that the rescaling leaves alone, [S[k + 1] <= N] and [I[k + 1] <= N], although
    the loop caps only [R] at [N]: the three clamped values are not negative
    and their rounded sum is [N] (or is not positive).  After a rescaled step
    the stored values are the clamped values times [N / total], which is
    where rounding can lift one above [N]. *)
Theorem at_most_population_unless_rescaled
    (N I0 R0_param beta gamma total_time : float) (time_steps : Z)
    (intervencao_dia beta_pos_intervencao : option float) :
  valid_config N I0 R0_param beta gamma total_time time_steps
    intervencao_dia beta_pos_intervencao ->
  fits time_steps ->
  exists res,
    run_sir_model N I0 R0_param beta gamma total_time time_steps
      intervencao_dia beta_pos_intervencao
    = Returns res /\
    res_S res !! 0%nat = Some (N - I0 - R0_param) /\
    (N - I0 - R0_param <=? N) = true /\
    res_I res !! 0%nat = Some I0 /\ (I0 <=? N) = true /\
    forall k, (k < Z.to_nat time_steps)%nat ->
      exists t_k b x s' i',
        res_t res !! k = Some t_k /\
        current_beta beta intervencao_dia beta_pos_intervencao t_k = Some b /\
        state_at res k = Some x /\
        res_S res !! (k + 1)%nat = Some s' /\
        res_I res !! (k + 1)%nat = Some i' /\
        let c := clamped_step N gamma b (total_time / Z2F time_steps) x in
        (rescales N c = false -> (s' <=? N) = true /\ (i' <=? N) = true) /\
        (rescales N c = true ->
         let total := fst (fst c) + snd (fst c) + snd c in
         s' = fst (fst c) * (N / total) /\ i' = snd (fst c) * (N / total)).
Proof.
  intros Hv Hfit.
  pose proof (valid_has_rates _ _ _ _ _ _ _ _ _ Hv) as Hrates.
  destruct (run_result N I0 R0_param beta gamma total_time time_steps
              intervencao_dia beta_pos_intervencao Hfit)
    as (res & Hrun & _ & Hpts & _ & Hst).
  { intros k _. apply Hrates. }
  exists res. split; [exact Hrun |].
  pose proof (Hst 0%nat ltac:(lia)) as H0. simpl in H0.
  apply cells_lookup in H0. simpl in H0. destruct H0 as (HS0 & HI0 & _).
  destruct (initial_at_most _ _ _ _ _ _ _ _ _ Hv) as (HSN & HIN & _).
  split; [exact HS0 |]. split; [exact HSN |]. split; [exact HI0 |].
  split; [exact HIN |].
  intros k Hk.
  destruct (Hrates (time_point total_time time_steps k)) as [b Hb].
  pose proof (Hst k ltac:(lia)) as Hk0.
  pose proof (Hst (Datatypes.S k) ltac:(lia)) as Hk1.
  simpl trajectory in Hk1. unfold rate in Hk1. rewrite Hb in Hk1.
  simpl default in Hk1. unfold step_size in Hk1.
  rewrite sir_next_clamped in Hk1. cbv zeta in Hk1.
  pose proof (trajectory_not_negative _ _ _ _ _ _ _ _ _ k Hv Hfit) as Hnn.
  cbv zeta in Hnn. destruct Hnn as (_ & Hi & Hr).
  set (x := trajectory N I0 R0_param beta gamma total_time time_steps
              intervencao_dia beta_pos_intervencao k) in *.
  assert (Hbound : rescales N
            (clamped_step N gamma b (total_time / Z2F time_steps) x) = false ->
          (fst (fst (clamped_step N gamma b
                       (total_time / Z2F time_steps) x)) <=? N) = true /\
          (snd (fst (clamped_step N gamma b
                       (total_time / Z2F time_steps) x)) <=? N) = true).
  { intros Hguard.
    destruct Hv as (HN & _ & _ & _ & _ & _ & _ & _ & _ & Hg & _ & HT & _).
    destruct (clamped_at_most N gamma b (total_time / Z2F time_steps) x)
      as (H1 & H2 & _); auto.
    - now apply positive_not_negative.
    - apply div_not_negative; [now apply positive_not_negative |].
      apply Z2F_unsigned. unfold fits in Hfit. lia. }
  set (c := clamped_step N gamma b (total_time / Z2F time_steps) x) in *.
  replace (k + 1)%nat with (Datatypes.S k) by lia.
  assert (Hc : clamped_step N gamma b (total_time / Z2F time_steps) x = c)
    by reflexivity.
  destruct (rescales N c) eqn:E.
  - apply cells_lookup in Hk1. simpl in Hk1. destruct Hk1 as (HS & HI & _).
    eexists (time_point total_time time_steps k), b, x, _, _.
    split; [now apply Hpts |]. split; [exact Hb |]. split; [exact Hk0 |].
    split; [exact HS |]. split; [exact HI |]. cbv zeta. rewrite Hc.
    split; [congruence | intros _; split; reflexivity].
  - destruct c as [[s2 i2] r2]. apply cells_lookup in Hk1. simpl in Hk1.
    destruct Hk1 as (HS & HI & _). simpl in Hbound.
    exists (time_point total_time time_steps k), b, x, s2, i2.
    split; [now apply Hpts |]. split; [exact Hb |]. split; [exact Hk0 |].
    split; [exact HS |]. split; [exact HI |]. cbv zeta. rewrite Hc.
    split; [intros _; now apply Hbound | congruence].
Qed.

(** ** Where rounding breaks the exact statements *)


(** C6 fails as stated.  In a valid run with no infected, [0.7 + 0.2] rounds
    to a total other than [0.9], the rescaling fires and [S[1]] differs from
    the initial number of susceptibles; in another the product [beta * S]
    overflows and [I[1]] is [nan], not [0]. *)
Lemma no_infected_susceptibles_move :
  (valid_config 0.9 0 0.2 0.5 0.1 4 4 None None /\
   exists res s0 s1,
     run_sir_model 0.9 0 0.2 0.5 0.1 4 4 None None = Returns res /\
     res_S res !! 0%nat = Some s0 /\ res_S res !! 1%nat = Some s1 /\
     s0 = 0.9 - 0 - 0.2 /\ (s1 =? s0) = false /\ (s0 <? s1) = true) /\
  (valid_config 1e10 0 1e-300 1e308 0.1 4 4 None None /\
   exists res i,
     run_sir_model 1e10 0 1e-300 1e308 0.1 4 4 None None = Returns res /\
     res_I res !! 1%nat = Some i /\
     (i =? 0) = false /\ is_nan i = true).
Proof.
  split; split.
  - unfold valid_config. repeat split; try reflexivity. intros H; exact H.
  - eexists _, _, _. split; [vm_compute; reflexivity |].
    split; [reflexivity |]. split; [reflexivity |]. repeat split.
  - unfold valid_config. repeat split; try reflexivity. intros H; exact H.
  - eexists _, _. split; [vm_compute; reflexivity |].
    split; [reflexivity |]. split; reflexivity.
Qed.

(** C8 fails as stated.  With 14 steps over a horizon of 122 the time points
    are not evenly spaced: [t[8] - t[7]] is neither [122 / 14] nor
    [t[1] - t[0]], and [t[7]] is not half the horizon. *)
Lemma time_axis_not_even :
  valid_config 1000 10 0 0.5 0.1 122 14 None None /\
  exists res t0 t1 t7 t8,
    run_sir_model 1000 10 0 0.5 0.1 122 14 None None = Returns res /\
    res_t res !! 0%nat = Some t0 /\ res_t res !! 1%nat = Some t1 /\
    res_t res !! 7%nat = Some t7 /\ res_t res !! 8%nat = Some t8 /\
    (t8 - t7 =? 122 / 14) = false /\
    (t8 - t7 =? t1 - t0) = false /\
    (t7 =? 61) = false.
Proof.
  split.
  - unfold valid_config. repeat split; try reflexivity. intros H; exact H.
  - eexists _, _, _, _, _. split; [vm_compute; reflexivity |].
    repeat (split; [reflexivity |]). reflexivity.
Qed.

(** C9 fails as stated.  In a valid run the rescaling lifts [I[1]] above
    [N = 0.9]. *)
Lemma rescaling_exceeds_population :
  valid_config 0.9 0.45 0 10 1e-20 2 4 None None /\
  exists res i,
    run_sir_model 0.9 0.45 0 10 1e-20 2 4 None None = Returns res /\
    res_I res !! 1%nat = Some i /\
    (i <=? 0.9) = false /\ (0.9 <? i) = true.
Proof.
  split.
  - unfold valid_config. repeat split; try reflexivity. intros H; exact H.
  - eexists _, _. split; [vm_compute; reflexivity |].
    split; [reflexivity |]. split; reflexivity.
Qed.

(** ** Concrete binary64 runs *)

(** One step in which every clamp acts: the forward update gives [S = -8],
    [I = 0 - 4 + 4 = 0] and [R = 16]; [S] is floored at [0], [I] is not above
    [0] and becomes the integer [0], [R] is capped at [N = 8]; the total is
    [N] and nothing is rescaled. *)
Example every_clamp_acts :
  run_sir_model 8 4 0 6 4 1 1 None None
  = Returns (Result [0; 1] [4; 0] [4; 0] [0; 8]).
Proof. vm_compute. reflexivity. Qed.

(** One step in which a clamp and the rescaling act: the forward update
    gives [S = -8], [I = 14], [R = 2]; [S] is floored at [0]; the total [16]
    is rescaled to [N = 8]. *)
Example rescaled_step :
  run_sir_model 8 4 0 6 0.5 1 1 None None
  = Returns (Result [0; 1] [4; 0] [4; 7] [0; 1]).
Proof. vm_compute. reflexivity. Qed.

(** The switch follows the rounded axis: with 14 steps over 122 days the
    eighth time point is just below 61, so an intervention on day 61 leaves
    that step at [beta]; it takes effect at the next one. *)
Example switch_on_rounded_axis :
  exists res t7 t8,
    run_sir_model 1000 10 0 0.5 0.1 122 14 (Some 61) (Some 0.15)
    = Returns res /\
    res_t res !! 7%nat = Some t7 /\ res_t res !! 8%nat = Some t8 /\
    (t7 <? 61) = true /\
    current_beta 0.5 (Some 61) (Some 0.15) t7 = Some 0.5 /\
    current_beta 0.5 (Some 61) (Some 0.15) t8 = Some 0.15.
Proof.
  eexists _, _, _. split; [vm_compute; reflexivity |].
  repeat (split; [reflexivity |]). reflexivity.
Qed.

(** A missing rate is found on the rounded axis too: over 10 steps of a
    horizon of 1, [t[9]] is [0.9] and reaches an intervention at [0.9]. *)
Example missing_rate_on_rounded_axis :
  run_sir_model 1000 10 0 0.5 0.1 1 10 (Some 0.9) None = Raises TypeError.
Proof. vm_compute. reflexivity. Qed.

(** ** The binary64 theorems at concrete configurations *)

Ltac valid_binary64 :=
  unfold valid_config; repeat split; try reflexivity; try lia;
  try (intros H; exact H); eauto.

Lemma intervention_switch_witness :
  fits 14 /\
  exists res,
    run_sir_model 1000 10 0 0.5 0.1 122 14 (Some 61) (Some 0.15)
    = Returns res /\
    forall k, (k < Z.to_nat 14)%nat ->
      exists t_k x,
        res_t res !! k = Some t_k /\
        state_at res k = Some x /\
        ((t_k <? 61) = true ->
         current_beta 0.5 (Some 61) (Some 0.15) t_k = Some 0.5 /\
         state_at res (k + 1)
         = Some (sir_next 1000 0.1 0.5 (122 / Z2F 14) x)) /\
        ((61 <=? t_k) = true ->
         current_beta 0.5 (Some 61) (Some 0.15) t_k = Some 0.15 /\
         state_at res (k + 1)
         = Some (sir_next 1000 0.1 0.15 (122 / Z2F 14) x)) /\
        ((61 <=? t_k) = false ->
         current_beta 0.5 (Some 61) (Some 0.15) t_k = Some 0.5 /\
         state_at res (k + 1)
         = Some (sir_next 1000 0.1 0.5 (122 / Z2F 14) x)).
Proof.
  assert (Hfit : fits 14) by (unfold fits; lia).
  split; [exact Hfit |].
  apply (intervention_switch 1000 10 0 0.5 0.1 122 14 61 0.15). exact Hfit.
Defined.

Lemma explicit_euler_step_witness :
  (fits 1 /\ (is_Some (@None float) -> is_Some (@None float))) /\
  exists res,
    run_sir_model 8 4 0 6 0.5 1 1 None None = Returns res /\
    forall k, (k < Z.to_nat 1)%nat ->
      exists t_k b s i r,
        res_t res !! k = Some t_k /\
        current_beta 6 None None t_k = Some b /\
        state_at res k = Some (s, i, r) /\
        let dt := 1 / Z2F 1 in
        let dS := - b * s * i / 8 in
        let dI := b * s * i / 8 - 0.5 * i in
        let dR := 0.5 * i in
        let s1 := s + dS * dt in
        let i1 := i + dI * dt in
        let r1 := r + dR * dt in
        let s2 := if 0 <? s1 then s1 else 0 in
        let i2 := if 0 <? i1 then i1 else 0 in
        let r2 := if r1 <? 8 then r1 else 8 in
        let total := s2 + i2 + r2 in
        state_at res (k + 1)
        = Some (if negb (total =? 8) && (0 <? total)
                then (s2 * (8 / total), i2 * (8 / total), r2 * (8 / total))
                else (s2, i2, r2)).
Proof.
  assert (Hfit : fits 1) by (unfold fits; lia).
  assert (Hrate : is_Some (@None float) -> is_Some (@None float))
    by (intros H; exact H).
  split; [split; [exact Hfit | exact Hrate] |].
  apply (explicit_euler_step 8 4 0 6 0.5 1 1 None None);
    [exact Hfit | exact Hrate].
Defined.



Lemma no_infected_stay_zero_witness :
  (valid_config 0.9 0 0.2 0.5 0.1 4 4 None None /\ fits 4 /\
   (0 =? 0) = true) /\
  exists res,
    run_sir_model 0.9 0 0.2 0.5 0.1 4 4 None None = Returns res /\
    res_S res !! 0%nat = Some (0.9 - 0 - 0.2) /\
    forall k, (k <= Z.to_nat 4)%nat ->
      exists i,
        res_I res !! k = Some i /\
        ((i =? 0) = true \/ is_nan i = true) /\
        (0 <? i) = false /\ (i <? 0) = false.
Proof.
  assert (Hv : valid_config 0.9 0 0.2 0.5 0.1 4 4 None None)
    by valid_binary64.
  assert (Hfit : fits 4) by (unfold fits; lia).
  split; [split; [exact Hv | split; [exact Hfit | reflexivity]] |].
  apply (no_infected_stay_zero 0.9 0 0.2 0.5 0.1 4 4 None None);
    [exact Hv | exact Hfit | reflexivity].
Defined.

Lemma time_axis_and_lengths_witness :
  (valid_config 1000 10 0 0.5 0.1 122 14 None None /\ fits 14) /\
  exists res,
    run_sir_model 1000 10 0 0.5 0.1 122 14 None None = Returns res /\
    (Z.of_nat (length (res_t res)) = 14 + 1 /\
     Z.of_nat (length (res_S res)) = 14 + 1 /\
     Z.of_nat (length (res_I res)) = 14 + 1 /\
     Z.of_nat (length (res_R res)) = 14 + 1)%Z /\
    res_t res !! 0%nat = Some 0 /\
    res_t res !! Z.to_nat 14 = Some 122 /\
    let dt := 122 / Z2F 14 in
    (is_finite dt = true /\ (0 <=? dt) = true /\ (dt <=? 122) = true) /\
    forall k, (k < Z.to_nat 14)%nat ->
      res_t res !! k
      = Some (if dt =? 0
              then Z2F (Z.of_nat k) / Z2F 14 * 122
              else Z2F (Z.of_nat k) * dt).
Proof.
  assert (Hv : valid_config 1000 10 0 0.5 0.1 122 14 None None)
    by valid_binary64.
  assert (Hfit : fits 14) by (unfold fits; lia).
  split; [split; [exact Hv | exact Hfit] |].
  apply (time_axis_and_lengths 1000 10 0 0.5 0.1 122 14 None None);
    [exact Hv | exact Hfit].
Defined.

Lemma at_most_population_unless_rescaled_witness :
  (valid_config 8 4 0 6 4 1 1 None None /\ fits 1) /\
  exists res,
    run_sir_model 8 4 0 6 4 1 1 None None = Returns res /\
    res_S res !! 0%nat = Some (8 - 4 - 0) /\
    (8 - 4 - 0 <=? 8) = true /\
    res_I res !! 0%nat = Some 4 /\ (4 <=? 8) = true /\
    forall k, (k < Z.to_nat 1)%nat ->
      exists t_k b x s' i',
        res_t res !! k = Some t_k /\
        current_beta 6 None None t_k = Some b /\
        state_at res k = Some x /\
        res_S res !! (k + 1)%nat = Some s' /\
        res_I res !! (k + 1)%nat = Some i' /\
        let c := clamped_step 8 4 b (1 / Z2F 1) x in
        (rescales 8 c = false -> (s' <=? 8) = true /\ (i' <=? 8) = true) /\
        (rescales 8 c = true ->
         let total := fst (fst c) + snd (fst c) + snd c in
         s' = fst (fst c) * (8 / total) /\ i' = snd (fst c) * (8 / total)).
Proof.
  assert (Hv : valid_config 8 4 0 6 4 1 1 None None) by valid_binary64.
  assert (Hfit : fits 1) by (unfold fits; lia).
  split; [split; [exact Hv | exact Hfit] |].
  apply (at_most_population_unless_rescaled 8 4 0 6 4 1 1 None None);
    [exact Hv | exact Hfit].
Defined.

End Binary64.
